(** * Med Mirror: image capture, local cache and face-aging proxy

    A shallow embedding of the TypeScript modules that carry the
    behaviour of the application:

    - the [ImageUpload] React component (file selection, camera capture,
      the [localStorage] cache with its 24 hour expiry, the face-aging
      request),
    - the [POST] handler of the [/api/face-aging] route,
    - the [useVisitAPI] hook, the dashboard's visit handler and link
      texts, and the build page.

    React state, [localStorage], the set of live camera streams and the
    observable effects (alerts, console output, the upload callback) are
    threaded through a small state monad, so that every handler reads
    like its source.  What belongs to the platform and not to the
    repository is the method of a class: [JSON.parse] and
    [JSON.stringify], and the storage quota of the browser.

    A JavaScript string is represented by its UTF-8 encoding, one
    [ascii] per byte. *)

From Stdlib Require Import ZArith String Ascii List Lia Bool.
From Stdlib.Strings Require Import Byte.
From stdpp Require Import gmap strings.
Import ListNotations.

Local Open Scope string_scope.
Local Open Scope Z_scope.

(** ** JavaScript values used by the code *)

(** [x ? a : b], [!x] and [x && y] on a nullable string: [null],
  [undefined] and the empty string are falsy. *)
Definition truthy (o : option string) : bool :=
match o with
| Some s => negb (String.eqb s "")
| None => false
end.

(** [a || b] on nullable strings. *)
Definition js_or (a b : option string) : option string :=
if truthy a then a else b.

(** Outcome of an operation that may throw (or a promise that may
  reject). *)
Inductive Thrown (E A : Type) : Type :=
| Returned (a : A)
| Threw (e : E).
Arguments Returned {E A} a.
Arguments Threw {E A} e.

(** ** [Number.prototype.toString] and [parseInt]

  [Date.now()] is an integral number of milliseconds, within
  [max_time] of zero and so far below 2^53: times are integers and
  their arithmetic is exact.  A timestamp that other code left in the
  storage may be larger; [to_double] is what the engine makes of it,
  and the one test that reads it comes out the same on both. *)
Module Num.

Definition code (c : ascii) : Z := Z.of_N (N_of_ascii c).

(** Value of a character as a digit in some radix up to 36. *)
Definition digit_val (c : ascii) : option Z :=
  let n := code c in
  if (48 <=? n) && (n <=? 57) then Some (n - 48)
  else if (97 <=? n) && (n <=? 122) then Some (n - 87)
  else if (65 <=? n) && (n <=? 90) then Some (n - 55)
  else None.

Definition digit_in (radix : Z) (c : ascii) : option Z :=
  match digit_val c with
  | Some d => if d <? radix then Some d else None
  | None => None
  end.

Definition digit_char (d : Z) : ascii := ascii_of_N (Z.to_N (48 + d)).

(** Decimal digits of a non-negative integer, most significant
    first, pushed in front of [acc]. *)
Fixpoint digits (fuel : nat) (n : Z) (acc : string) : string :=
  let acc' := String (digit_char (n mod 10)) acc in
  match fuel with
  | O => acc'
  | S fuel' => if n <? 10 then acc' else digits fuel' (n / 10) acc'
  end.

(** [n.toString()] for an integer [n]. *)
Definition toString (n : Z) : string :=
  let m := Z.abs n in
  let ds := digits (Z.to_nat (Z.log2 m)) m "" in
  if n <? 0 then String "-" ds else ds.

(** The one-byte members of StrWhiteSpaceChar: TAB, LF, VT, FF, CR,
    SP. *)
Definition is_space (c : ascii) : bool :=
  let n := code c in ((9 <=? n) && (n <=? 13)) || (n =? 32).

(** The three-byte members of StrWhiteSpaceChar, by their UTF-8 bytes:
    U+1680, U+2000 to U+200A, U+2028, U+2029, U+202F, U+205F, U+3000
    and U+FEFF. *)
Definition is_wide_space (a b c : Z) : bool :=
  ((a =? 225) && (b =? 154) && (c =? 128))
  || ((a =? 226) && (b =? 128)
      && (((128 <=? c) && (c <=? 138)) || (c =? 168) || (c =? 169)
          || (c =? 175)))
  || ((a =? 226) && (b =? 129) && (c =? 159))
  || ((a =? 227) && (b =? 128) && (c =? 128))
  || ((a =? 239) && (b =? 187) && (c =? 191)).

(** The white space that [parseInt] skips: every WhiteSpace and
    LineTerminator character, among them U+00A0 (bytes 194, 160). *)
Fixpoint skip_space (s : string) : string :=
  match s with
  | String c r =>
      if is_space c then skip_space r
      else
        match r with
        | String c1 r1 =>
            if (code c =? 194) && (code c1 =? 160) then skip_space r1
            else
              match r1 with
              | String c2 r2 =>
                  if is_wide_space (code c) (code c1) (code c2)
                  then skip_space r2
                  else s
              | EmptyString => s
              end
        | EmptyString => s
        end
  | EmptyString => s
  end.

(** Value of the longest prefix of [s] made of digits of [radix]. *)
Fixpoint parse_digits (radix acc : Z) (s : string) : Z :=
  match s with
  | String c r =>
      match digit_in radix c with
      | Some d => parse_digits radix (acc * radix + d) r
      | None => acc
      end
  | EmptyString => acc
  end.

(** [None] is NaN: there is no digit to read. *)
Definition parse_radix (radix : Z) (s : string) : option Z :=
  match s with
  | String c _ =>
      match digit_in radix c with
      | Some _ => Some (parse_digits radix 0 s)
      | None => None
      end
  | EmptyString => None
  end.

Definition is_x (c : ascii) : bool := (code c =? 120) || (code c =? 88).

(** The digits after the sign: a [0x] or [0X] prefix selects radix 16,
    otherwise the radix is 10. *)
Definition parse_magnitude (s : string) : option Z :=
  match s with
  | String c0 (String c1 r) =>
      if Ascii.eqb c0 "0" && is_x c1 then parse_radix 16 r
      else parse_radix 10 s
  | _ => parse_radix 10 s
  end.

(** [parseInt(s)] with no radix argument: leading white space, an
    optional sign, then the magnitude.  The result is the integer the
    digits denote.  The code holds it as a double: the same number up
    to 2^53 in magnitude, and so for every time that [Date.now()] can
    return, and [to_double] of it beyond. *)
Definition parseInt (s : string) : option Z :=
  match skip_space s with
  | String c r =>
      if Ascii.eqb c "-" then option_map Z.opp (parse_magnitude r)
      else if Ascii.eqb c "+" then parse_magnitude r
      else parse_magnitude (String c r)
  | EmptyString => None
  end.

(** [a - b] and [a < b] on numbers, [None] being NaN. *)
Definition sub (a : Z) (b : option Z) : option Z :=
  option_map (fun b => a - b) b.

Definition lt (a : option Z) (b : Z) : bool :=
  match a with
  | Some a => a <? b
  | None => false
  end.

(** The double nearest to the integer [z], ties to even: what the
    engine holds where this model holds [z].  (Past the largest double
    the engine holds an infinity, which compares as the value given
    here does.) *)
Definition to_double (z : Z) : Z :=
  let a := Z.abs z in
  if a <? 2 ^ 53 then z
  else
    let e := Z.log2 a - 52 in
    let q := a / 2 ^ e in
    let r := a mod 2 ^ e in
    let half := 2 ^ (e - 1) in
    let q' :=
      if r <? half then q
      else if half <? r then q + 1
      else if Z.even q then q else q + 1 in
    Z.sgn z * (q' * 2 ^ e).

(** The largest time value: [Date.now()] lies within it of zero. *)
Definition max_time : Z := 8640000000000000.

End Num.

(** ** Files and data URLs *)

Record File : Type := mkFile {
  file_name : string;
  file_type : string;
  file_bytes : list byte
}.

Module Base64.

Definition alphabet : string :=
  "ABCDEFGHIJKLMNOPQRSTUVWXYZabcdefghijklmnopqrstuvwxyz0123456789+/".

Definition char (n : Z) : ascii :=
  match String.get (Z.to_nat (n mod 64)) alphabet with
  | Some c => c
  | None => "="%char
  end.

Definition octet (b : byte) : Z := Z.of_N (Byte.to_N b).

Fixpoint encode (bs : list byte) : string :=
  match bs with
  | [] => ""
  | [a] =>
      let n := octet a * 65536 in
      String (char (n / 262144)) (String (char (n / 4096)) "==")
  | [a; b] =>
      let n := octet a * 65536 + octet b * 256 in
      String (char (n / 262144))
        (String (char (n / 4096)) (String (char (n / 64)) "="))
  | a :: b :: c :: rest =>
      let n := octet a * 65536 + octet b * 256 + octet c in
      String (char (n / 262144))
        (String (char (n / 4096))
           (String (char (n / 64)) (String (char n) (encode rest))))
  end.

End Base64.

(** The [result] of a [FileReader] after a completed
    [readAsDataURL(file)]. *)
Definition readAsDataURL (file : File) : string :=
  "data:" ++ file_type file ++ ";base64," ++ Base64.encode (file_bytes file).

(** [JSON.parse] and [JSON.stringify].  [parse] is [None] where
    [JSON.parse] throws a [SyntaxError]. *)
Class JSON : Type := {
  json_value : Type;
  JSON_parse : string -> option json_value;
  JSON_stringify : json_value -> string;
  JSON_stringify_indent : json_value -> Z -> string
}.

(** An instance that reads one document, the empty object, and rejects
    every other text; it agrees with [JSON.parse] on each text it is run
    on in this file. *)
Definition empty_object_json : JSON := {|
  json_value := unit;
  JSON_parse := fun s => if String.eqb s "{}" then Some tt else None;
  JSON_stringify := fun _ => "{}";
  JSON_stringify_indent := fun _ _ => "{}"
|}.

(** The storage quota of the browser: [fits stored] tells whether
    [localStorage] may hold [stored].  A [setItem] whose result does not
    fit throws a QuotaExceededError and stores nothing. *)
Class Quota : Type := {
  fits : gmap string string -> bool
}.

(** The size of a storage in units of one byte of key or value. *)
Definition storage_units (stored : gmap string string) : N :=
  map_fold
    (fun key value total =>
       (N.of_nat (String.length key) + N.of_nat (String.length value)
        + total)%N)
    0%N stored.

Definition quota_of (limit : N) : Quota := {|
  fits := fun stored => (storage_units stored <=? limit)%N
|}.

(** The usual quota of an origin, and, to run the handlers on short
    texts, a quota that a single small image already exceeds. *)
Definition five_megabytes : Quota := quota_of 5242880.

Definition cramped : Quota := quota_of 32.

(** ** The [ImageUpload] component *)

(** A [MediaStream] is known by its identity; its tracks are live while
    that identity is in the [live] set of the system. *)
Definition MediaStream : Type := nat.

(** The [useState] cells of the component. *)
Record State : Type := mkState {
  uploadedImage : option string;
  uploadedFile : option File;
  isLoading : bool;
  showCamera : bool;
  stream : option MediaStream;
  faceAgingResult : option string;
  isProcessingAging : bool
}.

(** A [FormData] is a list of named entries, each a file or a string;
    [get] returns the first entry of that name, or [null]. *)
Inductive FormDataEntryValue : Type :=
| FileEntry (f : File)
| StringEntry (s : string).

Definition FormData : Type := list (string * FormDataEntryValue).

Fixpoint FormData_get (name : string) (form : FormData)
  : option FormDataEntryValue :=
  match form with
  | [] => None
  | (k, v) :: rest =>
      if String.eqb k name then Some v else FormData_get name rest
  end.

(** What the user and the parent component can observe. *)
Inductive Event : Type :=
| Alert (msg : string)
| ConsoleError (msg : string)
| OnImageUpload (imageUrl : string)
| Fetch (url : string) (body : FormData).

(** The component state together with the browser around it. *)
Record Sys : Type := mkSys {
  st : State;
  window_defined : bool;
  localStorage : gmap string string;
  live : gset MediaStream;
  events : list Event
}.

(** The props: whether the optional [onImageUpload] was passed, and
    [smashData]. *)
Record Props `{JSON} : Type := mkProps {
  onImageUpload : bool;
  smashData : json_value
}.

(** The DOM elements behind [videoRef] and [canvasRef]. *)
Record Video : Type := mkVideo {
  videoWidth : Z;
  videoHeight : Z;
  fires_loadedmetadata : bool
}.

Record Canvas : Type := mkCanvas {
  has_context2d : bool;
  toBlob : option (list byte)
}.

Record Refs : Type := mkRefs {
  videoRef : option Video;
  canvasRef : option Canvas
}.

Definition initialState : State :=
  mkState None None false false None None false.

(** *** State monad *)

Definition M (A : Type) : Type := Sys -> A * Sys.

Definition ret {A} (a : A) : M A := fun s => (a, s).

Definition bind {A B} (m : M A) (k : A -> M B) : M B :=
  fun s => let (a, s') := m s in k a s'.

Declare Scope action_scope.
Delimit Scope action_scope with action.
Bind Scope action_scope with M.

Notation "x <- m ;; k" := (bind m (fun x => k))
  (at level 100, m at next level, right associativity) : action_scope.
Notation "m ;; k" := (bind m (fun _ => k))
  (at level 100, right associativity) : action_scope.

Local Open Scope action_scope.

Definition exec {A} (m : M A) (s : Sys) : Sys := snd (m s).

Definition modify (f : State -> State) : M unit :=
  fun s => (tt, mkSys (f (st s)) (window_defined s) (localStorage s)
                  (live s) (events s)).

Definition emit (e : Event) : M unit :=
  fun s => (tt, mkSys (st s) (window_defined s) (localStorage s) (live s)
                  (events s ++ [e])).

Definition get {A} (f : State -> A) : M A := fun s => (f (st s), s).

Definition when (b : bool) (m : M unit) : M unit := if b then m else ret tt.

Definition setUploadedImage (v : option string) : M unit :=
  modify (fun s => mkState v (uploadedFile s) (isLoading s) (showCamera s)
                     (stream s) (faceAgingResult s) (isProcessingAging s)).

Definition setUploadedFile (v : option File) : M unit :=
  modify (fun s => mkState (uploadedImage s) v (isLoading s) (showCamera s)
                     (stream s) (faceAgingResult s) (isProcessingAging s)).

Definition setIsLoading (v : bool) : M unit :=
  modify (fun s => mkState (uploadedImage s) (uploadedFile s) v (showCamera s)
                     (stream s) (faceAgingResult s) (isProcessingAging s)).

Definition setShowCamera (v : bool) : M unit :=
  modify (fun s => mkState (uploadedImage s) (uploadedFile s) (isLoading s) v
                     (stream s) (faceAgingResult s) (isProcessingAging s)).

Definition setStream (v : option MediaStream) : M unit :=
  modify (fun s => mkState (uploadedImage s) (uploadedFile s) (isLoading s)
                     (showCamera s) v (faceAgingResult s)
                     (isProcessingAging s)).

Definition setFaceAgingResult (v : option string) : M unit :=
  modify (fun s => mkState (uploadedImage s) (uploadedFile s) (isLoading s)
                     (showCamera s) (stream s) v (isProcessingAging s)).

Definition setIsProcessingAging (v : bool) : M unit :=
  modify (fun s => mkState (uploadedImage s) (uploadedFile s) (isLoading s)
                     (showCamera s) (stream s) (faceAgingResult s) v).

(** *** Browser primitives *)

Definition alert (msg : string) : M unit := emit (Alert msg).

Definition console_error (msg : string) : M unit := emit (ConsoleError msg).

(** [typeof window !== "undefined"] *)
Definition typeof_window_defined : M bool := fun s => (window_defined s, s).

(** [localStorage.setItem(key, value)]: the result is [false] when the
    browser refuses the value and the call throws. *)
Definition localStorage_setItem `{Quota} (key value : string) : M bool :=
  fun s =>
    let stored := <[key := value]> (localStorage s) in
    if fits stored then
      (true, mkSys (st s) (window_defined s) stored (live s) (events s))
    else (false, s).

(** Two statements in a row, each of which may throw: the second runs
    only when the first has returned. *)
Definition and_then (first second : M bool) : M bool :=
  returned <- first ;;
  if returned then second else ret false.

Definition localStorage_getItem (key : string) : M (option string) :=
  fun s => (localStorage s !! key, s).

Definition localStorage_removeItem (key : string) : M unit :=
  fun s => (tt, mkSys (st s) (window_defined s)
                  (delete key (localStorage s)) (live s) (events s)).

(** [navigator.mediaDevices.getUserMedia]: the browser either rejects
    or hands out a stream with live tracks. *)
Definition getUserMedia (outcome : Thrown string MediaStream)
  : M (Thrown string MediaStream) :=
  fun s =>
    match outcome with
    | Returned m =>
        (outcome, mkSys (st s) (window_defined s) (localStorage s)
                    ({[m]} ∪ live s) (events s))
    | Threw _ => (outcome, s)
    end.

(** [stream.getTracks().forEach((track) => track.stop())] *)
Definition stop_tracks (m : MediaStream) : M unit :=
  fun s => (tt, mkSys (st s) (window_defined s) (localStorage s)
                  (live s ∖ {[m]}) (events s)).

(** [onImageUpload?.(imageUrl)] *)
Definition call_onImageUpload `{JSON} (props : Props) (imageUrl : string)
  : M unit :=
  when (onImageUpload props) (emit (OnImageUpload imageUrl)).

(** *** Handlers *)

(** Handlers read the state cells as they are when the handler runs.
    An [await] splits a handler in two: the part before it, and the part
    that runs when the awaited promise settles. *)

(** [handleFileSelect] up to [reader.readAsDataURL(file)]: the result is
    the file whose read is now pending, if any.  Neither creating the
    reader nor starting the read throws, so the [catch] clause is never
    entered. *)
Definition handleFileSelect (file : File) : M (option File) :=
  if negb (String.prefix "image/" (file_type file)) then
    alert "Please select an image file" ;;
    ret None
  else
    setIsLoading true ;;
    ret (Some file).

(** The [reader.onload] callback installed by [handleFileSelect], run
    when the read completes; [now] is [Date.now()].  The callback runs
    outside the [try] of [handleFileSelect]: when a [setItem] throws,
    nothing catches it and the rest of the callback does not run, while
    the two state updates made before it stand. *)
Definition reader_onload `{Quota} `{JSON} (props : Props) (file : File)
    (now : Z) : M unit :=
  let imageUrl := readAsDataURL file in
  setUploadedImage (Some imageUrl) ;;
  setUploadedFile (Some file) ;;
  w <- typeof_window_defined ;;
  cached <-
    (if w then
       and_then
         (localStorage_setItem "cachedImage" imageUrl)
         (localStorage_setItem "cachedImageTimestamp" (Num.toString now))
     else ret true) ;;
  if cached then
    call_onImageUpload props imageUrl ;;
    setIsLoading false
  else ret tt.

(** [handleFileSelect] followed by the completion of the read it
    started. *)
Definition selectFile `{Quota} `{JSON} (props : Props) (file : File)
    (now : Z) : M unit :=
  pending <- handleFileSelect file ;;
  match pending with
  | Some f => reader_onload props f now
  | None => ret tt
  end.

Definition stopCamera : M unit :=
  s <- get stream ;;
  match s with
  | Some m => stop_tracks m ;; setStream None
  | None => ret tt
  end ;;
  setShowCamera false.

(** [handleCameraClick]; [outcome] is what [getUserMedia] settles to.
    When a video element is mounted the handler waits for its
    [loadedmetadata] event and does not resume without it. *)
Definition handleCameraClick (refs : Refs) (outcome : Thrown string MediaStream)
  : M unit :=
  setIsLoading true ;;
  r <- getUserMedia outcome ;;
  match r with
  | Returned mediaStream =>
      setStream (Some mediaStream) ;;
      setShowCamera true ;;
      match videoRef refs with
      | Some video =>
          if fires_loadedmetadata video then setIsLoading false else ret tt
      | None => setIsLoading false
      end
  | Threw error =>
      console_error ("Error accessing camera: " ++ error) ;;
      setIsLoading false ;;
      alert "Camera not available. Please use the upload option instead."
  end.

(** The cleanup returned by the effect keyed on [stream], closed over
    the value of [stream] in the render that installed it. *)
Definition stream_effect_cleanup (installed : option MediaStream) : M unit :=
  match installed with
  | Some m => stop_tracks m
  | None => ret tt
  end.

(** React commits a render: the cleanup of the previous render's effect
    runs when the dependency [stream] has changed. *)
Definition commit_stream_effect (prev : option MediaStream) : M unit :=
  cur <- get stream ;;
  if decide (prev = cur) then ret tt else stream_effect_cleanup prev.

(** The component is disposed: React runs the cleanup of the last
    render. *)
Definition unmount : M unit :=
  cur <- get stream ;;
  stream_effect_cleanup cur.

(** One activation of the camera as the user sees it: the click handler
    and the render it causes. *)
Definition activateCamera (refs : Refs) (outcome : Thrown string MediaStream)
  : M unit :=
  prev <- get stream ;;
  handleCameraClick refs outcome ;;
  commit_stream_effect prev.

(** [capturePhoto], including the [toBlob] callback.  The result is the
    file whose read was started, if any.  Sizing the hidden canvas and
    drawing the frame on it change nothing that the component reads
    back; [toBlob canvas] is the blob the browser hands to the
    callback. *)
Definition capturePhoto (refs : Refs) : M (option File) :=
  match videoRef refs, canvasRef refs with
  | Some video, Some canvas =>
      if negb (has_context2d canvas) then
        console_error "Canvas context not available" ;;
        ret None
      else if (videoWidth video =? 0) || (videoHeight video =? 0) then
        console_error "Video not ready - no dimensions" ;;
        alert "Camera not ready yet. Please wait a moment and try again." ;;
        ret None
      else
        match toBlob canvas with
        | Some blob =>
            let file := mkFile "camera-photo.jpg" "image/jpeg" blob in
            pending <- handleFileSelect file ;;
            stopCamera ;;
            ret pending
        | None =>
            console_error "Failed to create blob from canvas" ;;
            alert "Failed to capture photo. Please try again." ;;
            ret None
        end
  | _, _ =>
      console_error "Video or canvas ref not available" ;;
      ret None
  end.

Definition handleRemoveImage `{JSON} (props : Props) : M unit :=
  setUploadedImage None ;;
  setUploadedFile None ;;
  setFaceAgingResult None ;;
  w <- typeof_window_defined ;;
  when w (localStorage_removeItem "cachedImage" ;;
          localStorage_removeItem "cachedImageTimestamp") ;;
  call_onImageUpload props "".

(** The effect run once on mount ("load cached image on component
    mount"); [now] is [Date.now()]. *)
Definition loadCachedImage `{JSON} (props : Props) (now : Z) : M unit :=
  w <- typeof_window_defined ;;
  when w (
    cachedImage <- localStorage_getItem "cachedImage" ;;
    timestamp <- localStorage_getItem "cachedImageTimestamp" ;;
    when (truthy cachedImage && truthy timestamp) (
      let imageAge := Num.sub now (Num.parseInt (default "" timestamp)) in
      let twentyFourHours := 24 * 60 * 60 * 1000 in
      if Num.lt imageAge twentyFourHours then
        setUploadedImage cachedImage ;;
        call_onImageUpload props (default "" cachedImage)
      else
        localStorage_removeItem "cachedImage" ;;
        localStorage_removeItem "cachedImageTimestamp")).

(** What the client sees of an HTTP response. *)
Record HttpResponse : Type := mkHttpResponse {
  ok : bool;
  statusText : string;
  json_prediction : Thrown string (option string)
}.

(** [handleFaceAging] up to the [fetch]: the result is the body of the
    request now in flight, if any. *)
Definition handleFaceAging_request `{JSON} (props : Props)
  : M (option FormData) :=
  file <- get uploadedFile ;;
  match file with
  | None =>
      alert "Please upload an image first" ;;
      ret None
  | Some f =>
      setIsProcessingAging true ;;
      let formData :=
        [("image", FileEntry f);
         ("smash", StringEntry (JSON_stringify (smashData props)))] in
      emit (Fetch "/api/face-aging" formData) ;;
      ret (Some formData)
  end.

Definition face_aging_failed (error : string) : M unit :=
  console_error ("Face aging error: " ++ error) ;;
  alert "Failed to process face aging. Please try again.".

(** The rest of [handleFaceAging], run when the [fetch] settles. *)
Definition handleFaceAging_settled (r : Thrown string HttpResponse) : M unit :=
  match r with
  | Returned response =>
      if negb (ok response) then
        face_aging_failed ("API request failed: " ++ statusText response)
      else
        match json_prediction response with
        | Returned prediction => setFaceAgingResult prediction
        | Threw error => face_aging_failed error
        end
  | Threw error => face_aging_failed error
  end ;;
  setIsProcessingAging false.

Definition handleFaceAging `{JSON} (props : Props)
    (fetch : FormData -> Thrown string HttpResponse) : M unit :=
  pending <- handleFaceAging_request props ;;
  match pending with
  | Some formData => handleFaceAging_settled (fetch formData)
  | None => ret tt
  end.

(** What the component renders. *)
Inductive View : Type :=
| CameraView
| ImageView (src : option string)
| UploadView.

Definition render (s : State) : View :=
  if showCamera s then CameraView
  else if truthy (uploadedImage s) then
    ImageView (js_or (faceAgingResult s) (uploadedImage s))
  else UploadView.

(** ** The [/api/face-aging] route *)

Record ProcessEnv : Type := mkProcessEnv {
  OPENAI_API_KEY : option string
}.

(** The argument of [openai.images.edit]. *)
Record ImagesEditParams : Type := mkImagesEditParams {
  edit_model : string;
  edit_image : option FormDataEntryValue;
  edit_prompt : string;
  edit_n : Z;
  edit_size : string;
  edit_quality : string
}.

Record Image : Type := mkImage {
  b64_json : option string
}.

Record ImagesResponse : Type := mkImagesResponse {
  data : option (list Image)
}.

Inductive Body : Type :=
| ErrorBody (error : string)
| PredictionBody (prediction : option string) (model_used timestamp : string).

Record NextResponse : Type := mkNextResponse {
  status : Z;
  body : Body
}.

(** [NextResponse.json(body, { status })]; the status defaults to 200. *)
Definition NextResponse_json (b : Body) (init : option Z) : NextResponse :=
  mkNextResponse (default 200 init) b.

(** One run of the handler: the response sent, the calls made to the
    hosted API, and what went to the server console. *)
Record Handled : Type := mkHandled {
  sent : NextResponse;
  calls : list ImagesEditParams;
  server_console : list string
}.

(** [!x] on a form entry: [null] and the empty string are falsy, a file
    is an object and truthy. *)
Definition entry_truthy (e : option FormDataEntryValue) : bool :=
  match e with
  | Some (FileEntry _) => true
  | Some (StringEntry s) => negb (String.eqb s "")
  | None => false
  end.

(** The entry as [JSON.parse] reads it, after conversion to a string. *)
Definition entry_string (e : option FormDataEntryValue) : string :=
  match e with
  | Some (StringEntry s) => s
  | Some (FileEntry _) => "[object File]"
  | None => "null"
  end.

Definition nl : string := String (ascii_of_nat 10) "".

Definition prompt_of `{JSON} (parsedSmashData : json_value) : string :=
  nl ++
  "              Using the provided smash model can you generate a new image of the face to show what it's going to look like in 5 years? "
  ++ nl ++ nl ++
  "Health and lifestyle data: " ++ JSON_stringify_indent parsedSmashData 2
  ++ nl ++ nl ++
  "This person is currently 30 years old."
  ++ nl ++ nl ++
  "Please analyze the health data and describe how this person's face might age over the next 10 years based on their lifestyle, medical history, and risk factors.".

(** [response.data?.[0]?.b64_json] *)
Definition first_b64_json (r : ImagesResponse) : option string :=
  match data r with
  | Some (img :: _) => b64_json img
  | _ => None
  end.

(** The [catch] clause of [POST]. *)
Definition prediction_failed (error : string) (made : list ImagesEditParams)
  : Handled :=
  mkHandled
    (NextResponse_json (ErrorBody "Failed to process face aging prediction")
       (Some 500))
    made
    ["OpenAI API error: " ++ error].

(** [POST(request)].  [request] is what [request.formData()] settles to,
    [images_edit] is the behaviour of the hosted API, [now_iso] is
    [new Date().toISOString()]. *)
Definition POST `{JSON} (env : ProcessEnv)
    (images_edit : ImagesEditParams -> Thrown string ImagesResponse)
    (now_iso : string) (request : Thrown string FormData) : Handled :=
  match request with
  | Threw error => prediction_failed error []
  | Returned formData =>
      let image := FormData_get "image" formData in
      let smashData := FormData_get "smash" formData in
      if negb (entry_truthy image) || negb (entry_truthy smashData) then
        mkHandled
          (NextResponse_json
             (ErrorBody "Both image and smash data are required") (Some 400))
          [] []
      else if negb (truthy (OPENAI_API_KEY env)) then
        mkHandled
          (NextResponse_json (ErrorBody "OpenAI API key not configured")
             (Some 500))
          [] []
      else
        match JSON_parse (entry_string smashData) with
        | None =>
            mkHandled
              (NextResponse_json (ErrorBody "Invalid JSON in smash data")
                 (Some 400))
              [] []
        | Some parsedSmashData =>
            let params :=
              mkImagesEditParams "gpt-image-1" image
                (prompt_of parsedSmashData) 1 "1024x1024" "medium" in
            match images_edit params with
            | Threw error => prediction_failed error [params]
            | Returned response =>
                let base64Data := first_b64_json response in
                let imageDataUrl :=
                  if truthy base64Data then
                    Some ("data:image/png;base64," ++ default "" base64Data)
                  else None in
                mkHandled
                  (NextResponse_json
                     (PredictionBody imageDataUrl "dall-e-2" now_iso) None)
                  [params] []
            end
        end
  end.

(** The named failures of the route. *)
Definition MissingField : NextResponse :=
  mkNextResponse 400 (ErrorBody "Both image and smash data are required").

Definition ServiceUnavailable : NextResponse :=
  mkNextResponse 500 (ErrorBody "OpenAI API key not configured").

Definition MalformedContext : NextResponse :=
  mkNextResponse 400 (ErrorBody "Invalid JSON in smash data").

Definition PredictionFailed : NextResponse :=
  mkNextResponse 500 (ErrorBody "Failed to process face aging prediction").

(** A success response: status 200 with a prediction body. *)
Definition is_success (r : NextResponse) : bool :=
  (status r =? 200) &&
  match body r with
  | PredictionBody _ _ _ => true
  | ErrorBody _ => false
  end.

(** The request passed every check of the handler and reached the
    hosted API. *)
Definition passes_validation `{JSON} (env : ProcessEnv) (formData : FormData)
  : bool :=
  entry_truthy (FormData_get "image" formData) &&
  entry_truthy (FormData_get "smash" formData) &&
  truthy (OPENAI_API_KEY env) &&
  bool_decide
    (is_Some (JSON_parse (entry_string (FormData_get "smash" formData)))).

(** *** The route as the client's [fetch] sees it *)

Definition statusText_of (code : Z) : string :=
  if code =? 200 then "OK"
  else if code =? 400 then "Bad Request"
  else if code =? 500 then "Internal Server Error"
  else "".

(** [result.prediction] after [response.json()]: absent on an error
    body. *)
Definition http_of_response (r : NextResponse) : HttpResponse :=
  mkHttpResponse
    ((200 <=? status r) && (status r <=? 299))
    (statusText_of (status r))
    (Returned
       match body r with
       | PredictionBody p _ _ => p
       | ErrorBody _ => None
       end).

Definition fetch_route `{JSON} (env : ProcessEnv)
    (images_edit : ImagesEditParams -> Thrown string ImagesResponse)
    (now_iso : string) (formData : FormData) : Thrown string HttpResponse :=
  Returned (http_of_response
              (sent (POST env images_edit now_iso (Returned formData)))).

(** Every character of the text is a decimal digit. *)
Fixpoint all_digits (s : string) : Prop :=
  match s with
  | String c r => is_Some (Num.digit_in 10 c) /\ all_digits r
  | EmptyString => True
  end.

(** ** More of the component: the file input and whole interactions *)

(** [handleFileChange]: [files] is [e.target.files]; only its first
    element is looked at. *)
Definition handleFileChange (files : option (list File)) : M (option File) :=
  match files with
  | Some (file :: _) => handleFileSelect file
  | _ => ret None
  end.

(** A fresh component in a browser whose [localStorage] is [stored]:
    what a page load starts from. *)
Definition mounted_on (stored : gmap string string) : Sys :=
  mkSys initialState true stored ∅ [].

(** One interaction with the component, taken to its end: the handler,
    the completion of a file read it started, and the render that
    follows. *)
Inductive Action : Type :=
| FileChange (files : option (list File)) (now : Z)
| CameraClick (refs : Refs) (outcome : Thrown string MediaStream)
| Capture (refs : Refs) (now : Z)
| CancelCamera
| RemoveImage
| FaceAging (fetch : FormData -> Thrown string HttpResponse).

Definition handler_of `{Quota} `{JSON} (props : Props) (a : Action)
  : M unit :=
  match a with
  | FileChange files now =>
      pending <- handleFileChange files ;;
      match pending with
      | Some f => reader_onload props f now
      | None => ret tt
      end
  | CameraClick refs outcome => handleCameraClick refs outcome
  | Capture refs now =>
      pending <- capturePhoto refs ;;
      match pending with
      | Some f => reader_onload props f now
      | None => ret tt
      end
  | CancelCamera => stopCamera
  | RemoveImage => handleRemoveImage props
  | FaceAging fetch => handleFaceAging props fetch
  end.

Definition perform `{Quota} `{JSON} (props : Props) (a : Action)
  : M unit :=
  prev <- get stream ;;
  handler_of props a ;;
  commit_stream_effect prev.

Fixpoint perform_all `{Quota} `{JSON} (props : Props)
    (actions : list Action) : M unit :=
  match actions with
  | [] => ret tt
  | a :: rest => perform props a ;; perform_all props rest
  end.

(** The image shown and the cache agree: the component holds exactly
    the cached data URL, and the two keys are present together. *)
Definition cache_consistent (s : Sys) : Prop :=
  uploadedImage (st s) = localStorage s !! "cachedImage" /\
  (is_Some (localStorage s !! "cachedImage") <->
   is_Some (localStorage s !! "cachedImageTimestamp")).

(** ** The [useVisitAPI] hook and the dashboard's [handleVisitDoctor] *)

(** A thrown value: an [Error] with its message, or anything else. *)
Inductive JsThrown : Type :=
| ErrorObject (message : string)
| NotAnError.

Record VisitResponse `{JSON} : Type := mkVisitResponse {
  visit_ok : bool;
  visit_status : Z;
  visit_json : Thrown JsThrown json_value
}.
Arguments mkVisitResponse {_} _ _ _.

Inductive VisitEvent `{JSON} : Type :=
| VisitFetch (url body : string)
| VisitConsoleLog (label : string) (value : json_value)
| VisitConsoleError (label : string) (err : JsThrown)
| VisitAlert (msg : string).

(** The [useState] cells of the hook, and what the page shows and
    logs. *)
Record VisitState `{JSON} : Type := mkVisitState {
  visit_isLoading : bool;
  improvementData : option json_value;
  visit_error : option string;
  visit_events : list VisitEvent
}.
Arguments mkVisitState {_} _ _ _ _.

Definition visit_emit `{JSON} (e : VisitEvent) (s : VisitState) : VisitState :=
  mkVisitState (visit_isLoading s) (improvementData s) (visit_error s)
    (visit_events s ++ [e]).

Definition setVisitIsLoading `{JSON} (v : bool) (s : VisitState) : VisitState :=
  mkVisitState v (improvementData s) (visit_error s) (visit_events s).

Definition setImprovementData `{JSON} (v : option json_value) (s : VisitState)
  : VisitState :=
  mkVisitState (visit_isLoading s) v (visit_error s) (visit_events s).

Definition setError `{JSON} (v : option string) (s : VisitState) : VisitState :=
  mkVisitState (visit_isLoading s) (improvementData s) v (visit_events s).

Definition visit_url : string := "https://mirror-med-api.fly.dev/visit-crew".

(** [scheduleVisit] up to the [fetch]. *)
Definition scheduleVisit_request `{JSON} (data : json_value) (s : VisitState)
  : VisitState :=
  let s := setVisitIsLoading true s in
  let s := setError None s in
  visit_emit (VisitFetch visit_url (JSON_stringify data)) s.

(** The [catch] and [finally] clauses of [scheduleVisit]: the error is
    recorded and thrown again. *)
Definition scheduleVisit_catch `{JSON} (err : JsThrown) (s : VisitState)
  : VisitState * Thrown JsThrown unit :=
  let errorMessage :=
    match err with
    | ErrorObject message => message
    | NotAnError => "Unknown error occurred"
    end in
  let s := visit_emit (VisitConsoleError "Error calling visit API:" err) s in
  let s := setError (Some errorMessage) s in
  (setVisitIsLoading false s, Threw err).

(** The rest of [scheduleVisit], run when the [fetch] settles. *)
Definition scheduleVisit_settled `{JSON}
    (r : Thrown JsThrown VisitResponse) (s : VisitState)
  : VisitState * Thrown JsThrown unit :=
  match r with
  | Returned response =>
      if negb (visit_ok response) then
        scheduleVisit_catch
          (ErrorObject
             ("HTTP error! status: " ++ Num.toString (visit_status response)))
          s
      else
        match visit_json response with
        | Returned result =>
            let s :=
              visit_emit (VisitConsoleLog "Visit API response:" result) s in
            let s := setImprovementData (Some result) s in
            (setVisitIsLoading false s, Returned tt)
        | Threw err => scheduleVisit_catch err s
        end
  | Threw err => scheduleVisit_catch err s
  end.

Definition scheduleVisit `{JSON}
    (fetch : string -> string -> Thrown JsThrown VisitResponse)
    (data : json_value) (s : VisitState)
  : VisitState * Thrown JsThrown unit :=
  scheduleVisit_settled (fetch visit_url (JSON_stringify data))
    (scheduleVisit_request data s).

Definition clearImprovementData `{JSON} (s : VisitState) : VisitState :=
  setError None (setImprovementData None s).

(** [handleVisitDoctor] of the dashboard; [smash] is the imported
    [smash.json]. *)
Definition handleVisitDoctor `{JSON}
    (fetch : string -> string -> Thrown JsThrown VisitResponse)
    (smash : json_value) (s : VisitState) : VisitState :=
  match scheduleVisit fetch smash s with
  | (s, Returned _) =>
      visit_emit
        (VisitAlert
           "Visit doctor successfully! Your improvement plan is now showing.")
        s
  | (s, Threw error) =>
      let s :=
        visit_emit (VisitConsoleError "Error calling visit API:" error) s in
      visit_emit (VisitAlert "Failed to schedule visit. Please try again.") s
  end.

Definition visit_initial `{JSON} : VisitState :=
  mkVisitState false None None [].

(** ** The evidence links of the dashboard *)

Module Link.

(** [s] without the prefix [p], when it starts with it. *)
Fixpoint strip_prefix (p s : string) : option string :=
  match p, s with
  | EmptyString, _ => Some s
  | String a p', String b s' =>
      if Ascii.eqb a b then strip_prefix p' s' else None
  | String _ _, EmptyString => None
  end.

(** [s.replace(/https?:\/\//, "")]: the leftmost occurrence of
    [http://] or [https://] is removed. *)
Fixpoint replace_scheme (s : string) : string :=
  match strip_prefix "https://" s with
  | Some rest => rest
  | None =>
      match strip_prefix "http://" s with
      | Some rest => rest
      | None =>
          match s with
          | String c r => String c (replace_scheme r)
          | EmptyString => EmptyString
          end
      end
  end.

(** [s.split("/")[0]] *)
Fixpoint before_slash (s : string) : string :=
  match s with
  | String c r =>
      if Ascii.eqb c "/" then EmptyString else String c (before_slash r)
  | EmptyString => EmptyString
  end.

(** The text of an evidence link:
    [url.replace(/https?:\/\//, "").split("/")[0]]. *)
Definition label (url : string) : string := before_slash (replace_scheme url).

(** The character [c] occurs in [s]. *)
Fixpoint occurs (c : ascii) (s : string) : Prop :=
  match s with
  | String d r => c = d \/ occurs c r
  | EmptyString => False
  end.

End Link.

(** ** The build page: [BuildProcess] *)

Module Build.

Definition steps : list string :=
  ["Pulling your medical records";
   "Loading your health data";
   "Analyzing the health data";
   "Generating SMASH FM model";
   "Building your med mirror";
   "Building digital twin for your primary physitian (Dr Samantha Blake, MD)"].

(** The state cells, the timer set by the effect and not yet fired, and
    the number of calls of [onComplete] so far. *)
Record State : Type := mkState {
  currentStep : nat;
  completedSteps : list nat;
  isComplete : bool;
  timer : bool;
  onComplete_calls : nat
}.

Definition initial : State := mkState 0 [] false false 0.

(** The effect keyed on [currentStep]: it runs after the first render
    and after each render in which [currentStep] has changed. *)
Definition effect (s : State) : State :=
  if (currentStep s <? length steps)%nat then
    mkState (currentStep s) (completedSteps s ++ [currentStep s])
      (isComplete s) true (onComplete_calls s)
  else s.

(** The timer callback, 2000 ms after the effect. *)
Definition timeout (s : State) : State :=
  if (currentStep s =? length steps - 1)%nat then
    mkState (currentStep s) (completedSteps s) true false
      (S (onComplete_calls s))
  else
    mkState (S (currentStep s)) (completedSteps s) (isComplete s) false
      (onComplete_calls s).

(** The component after its first render. *)
Definition mount : State := effect initial.

(** Two seconds pass: a pending timer fires, and the effect runs again
    when the step has changed. *)
Definition tick (s : State) : State :=
  if timer s then
    let s' := timeout s in
    if (currentStep s' =? currentStep s)%nat then s' else effect s'
  else s.

Fixpoint ticks (n : nat) (s : State) : State :=
  match n with
  | O => s
  | S n' => ticks n' (tick s)
  end.

Inductive Status : Type := completed | current | pending.

(** [completedSteps.includes(index)] *)
Definition includes (l : list nat) (index : nat) : bool :=
  existsb (Nat.eqb index) l.

Definition getStepStatus (s : State) (index : nat) : Status :=
  if includes (completedSteps s) index then completed
  else if (index =? currentStep s)%nat then current
  else pending.

End Build.

(** ** Observations used in the statements *)

(** The streams that may still be live, given what the component holds
    in [stream]. *)
Definition held_streams (s : State) : gset MediaStream :=
  match stream s with
  | Some m => {[m]}
  | None => ∅
  end.


(** What [capturePhoto] reports when the frame has no dimensions
    (StreamNotReady). *)
Definition StreamNotReady : list Event :=
  [ConsoleError "Video not ready - no dimensions";
   Alert "Camera not ready yet. Please wait a moment and try again."].

(** What the hosted API answered in a run of [POST], if it was
    called. *)
Definition downstream_outcome
    (images_edit : ImagesEditParams -> Thrown string ImagesResponse)
    (h : Handled) : option (Thrown string ImagesResponse) :=
  match calls h with
  | params :: _ => Some (images_edit params)
  | [] => None
  end.

(** The prediction a settled [fetch] delivers to [handleFaceAging]:
    [None] when the request was rejected, the response is not [ok], or
    its body cannot be read. *)
Definition delivered_prediction (r : Thrown string HttpResponse)
  : option (option string) :=
  match r with
  | Returned response =>
      if ok response then
        match json_prediction response with
        | Returned prediction => Some prediction
        | Threw _ => None
        end
      else None
  | Threw _ => None
  end.

(** The body of the request that [handleFaceAging] sends. *)
Definition face_aging_form `{JSON} (props : Props) (file : File) : FormData :=
  [("image", FileEntry file);
   ("smash", StringEntry (JSON_stringify (smashData props)))].

(** What [scheduleVisit] throws for a settled [fetch]; [None] when it
    succeeds. *)
Definition visit_failure `{JSON} (r : Thrown JsThrown VisitResponse)
  : option JsThrown :=
  match r with
  | Returned response =>
      if visit_ok response then
        match visit_json response with
        | Returned _ => None
        | Threw err => Some err
        end
      else
        Some (ErrorObject
                ("HTTP error! status: "
                 ++ Num.toString (visit_status response)))
  | Threw err => Some err
  end.

(** [err instanceof Error ? err.message : "Unknown error occurred"] *)
Definition error_message (err : JsThrown) : string :=
  match err with
  | ErrorObject message => message
  | NotAnError => "Unknown error occurred"
  end.

(** Both writes of [reader.onload] for [file] at time [now] are
    accepted by the browser. *)
Definition stores `{Quota} (file : File) (now : Z) (s : Sys) : bool :=
  fits (<["cachedImage" := readAsDataURL file]> (localStorage s))
  && fits (<["cachedImageTimestamp" := Num.toString now]>
             (<["cachedImage" := readAsDataURL file]> (localStorage s))).

(** No file read completed by the interaction [a] runs into the
    quota. *)
Definition action_within_quota `{Quota} (a : Action) (s : Sys) : bool :=
  match a with
  | FileChange files now =>
      match fst (handleFileChange files s) with
      | Some file => stores file now s
      | None => true
      end
  | Capture refs now =>
      match fst (capturePhoto refs s) with
      | Some file => stores file now s
      | None => true
      end
  | _ => true
  end.

Fixpoint session_within_quota `{Quota} `{JSON} (props : Props)
    (actions : list Action) (s : Sys) : Prop :=
  match actions with
  | [] => True
  | a :: rest =>
      action_within_quota a s = true /\
      session_within_quota props rest (exec (perform props a) s)
  end.



(** ** Sample inputs *)

Definition portrait : File :=
  mkFile "portrait.png" "image/png" [x4d; x61; x6e].

Definition second_portrait : File :=
  mkFile "second.jpg" "image/jpeg" [x4d; x61].

Definition notes : File := mkFile "notes.txt" "text/plain" [x4d].

(** A browser with an empty [localStorage], the component just
    mounted. *)
Definition browser0 : Sys := mkSys initialState true ∅ ∅ [].

(** The sample runs take place in a browser with the usual quota. *)
#[export] Existing Instance five_megabytes.

Definition sample_props : @Props empty_object_json :=
  @mkProps empty_object_json true tt.

(** A timestamp behind a no-break space (U+00A0). *)
Definition padded_timestamp : string :=
  String (ascii_of_nat 194) (String (ascii_of_nat 160) "1750000000000").

Definition old_prediction : string := "data:image/png;base64,b2xk".

(** * Properties *)

(** ** Numbers and their decimal text *)

Lemma digit_in_10_code (c : ascii) (d : Z) :
  Num.digit_in 10 c = Some d -> 48 <= Num.code c <= 57 /\ d = Num.code c - 48.
Proof.
  unfold Num.digit_in, Num.digit_val.
  repeat (case_match; try discriminate); intros; simplify_eq; lia.
Qed.

Lemma digit_char_code (d : Z) :
  0 <= d < 10 -> Num.code (Num.digit_char d) = 48 + d.
Proof.
  intros Hd. unfold Num.code, Num.digit_char.
  rewrite N_ascii_embedding by lia. lia.
Qed.

Lemma digit_in_10_digit_char (d : Z) :
  0 <= d < 10 -> Num.digit_in 10 (Num.digit_char d) = Some d.
Proof.
  intros Hd. unfold Num.digit_in, Num.digit_val.
  rewrite digit_char_code by lia.
  replace ((48 <=? 48 + d) && (48 + d <=? 57)) with true by lia.
  replace (48 + d - 48 <? 10) with true by lia.
  f_equal. lia.
Qed.

Lemma string_app_cons (c : ascii) (s t : string) :
  String c s ++ t = String c (s ++ t).
Proof. reflexivity. Qed.

Lemma string_app_nil (t : string) : "" ++ t = t.
Proof. reflexivity. Qed.

Lemma string_app_assoc (s t u : string) : (s ++ t) ++ u = s ++ (t ++ u).
Proof.
  induction s as [|c s IH]; [done|].
  by rewrite !string_app_cons, IH.
Qed.

Lemma all_digits_app (s t : string) :
  all_digits s -> all_digits t -> all_digits (s ++ t).
Proof.
  induction s as [|c s IH]; [done|].
  rewrite string_app_cons. simpl. intuition.
Qed.

Lemma parse_digits_app (s t : string) (a : Z) :
  all_digits s ->
  Num.parse_digits 10 a (s ++ t)
  = Num.parse_digits 10 (Num.parse_digits 10 a s) t.
Proof.
  revert a. induction s as [|c s IH]; intros a Hs; [done|].
  rewrite string_app_cons. simpl.
  destruct Hs as [[d Hd] Hs]. rewrite Hd. by apply IH.
Qed.

Lemma digits_acc (fuel : nat) (n : Z) (acc : string) :
  Num.digits fuel n acc = Num.digits fuel n "" ++ acc.
Proof.
  revert n acc. induction fuel as [|fuel IH]; intros n acc; simpl; [done|].
  destruct (n <? 10); [done|].
  rewrite IH. rewrite (IH _ (String _ "")).
  by rewrite string_app_assoc.
Qed.

Lemma digits_all_digits (fuel : nat) (n : Z) :
  all_digits (Num.digits fuel n "").
Proof.
  assert (Hd : forall m, is_Some (Num.digit_in 10 (Num.digit_char (m mod 10)))).
  { intros m. rewrite digit_in_10_digit_char; [done|].
    apply Z.mod_pos_bound. lia. }
  revert n. induction fuel as [|fuel IH]; intros n; simpl; [by auto|].
  destruct (n <? 10); [simpl; by auto|].
  rewrite digits_acc. apply all_digits_app; [apply IH|simpl; by auto].
Qed.

Lemma digits_nonempty (fuel : nat) (n : Z) (acc : string) :
  Num.digits fuel n acc <> "".
Proof.
  revert n acc. induction fuel as [|fuel IH]; intros n acc; simpl; [done|].
  destruct (n <? 10); [done|apply IH].
Qed.

Lemma parse_digits_digits (fuel : nat) (n : Z) :
  0 <= n < 10 * 2 ^ Z.of_nat fuel ->
  Num.parse_digits 10 0 (Num.digits fuel n "") = n.
Proof.
  revert n. induction fuel as [|fuel IH]; intros n Hn.
  - simpl in *. rewrite digit_in_10_digit_char by (apply Z.mod_pos_bound; lia).
    rewrite Z.mod_small; lia.
  - cbn [Num.digits]. destruct (Z.ltb_spec n 10) as [Hlt|Hge].
    + simpl. rewrite digit_in_10_digit_char by (apply Z.mod_pos_bound; lia).
      rewrite Z.mod_small; lia.
    + rewrite digits_acc, parse_digits_app by apply digits_all_digits.
      rewrite IH.
      * simpl. rewrite digit_in_10_digit_char by (apply Z.mod_pos_bound; lia).
        pose proof (Z.div_mod n 10). lia.
      * rewrite Nat2Z.inj_succ, Z.pow_succ_r in Hn by lia.
        split; [apply Z.div_pos; lia|].
        apply Z.div_lt_upper_bound; lia.
Qed.

Lemma parse_magnitude_digits (s : string) :
  all_digits s -> s <> "" ->
  Num.parse_magnitude s = Some (Num.parse_digits 10 0 s).
Proof.
  intros Hs Hne. destruct s as [|c0 s]; [done|].
  destruct Hs as [[d0 Hd0] Hs].
  assert (H10 : Num.parse_radix 10 (String c0 s)
                = Some (Num.parse_digits 10 0 (String c0 s))).
  { unfold Num.parse_radix. by rewrite Hd0. }
  unfold Num.parse_magnitude. destruct s as [|c1 r]; [done|].
  destruct Hs as [[d1 Hd1] _]. apply digit_in_10_code in Hd1.
  replace (Num.is_x c1) with false; [by rewrite andb_false_r|].
  unfold Num.is_x. lia.
Qed.

(** A character below 128 that is not white space stops the skipping. *)
Lemma skip_space_stops (c : ascii) (r : string) :
  Num.is_space c = false -> Num.code c < 128 ->
  Num.skip_space (String c r) = String c r.
Proof.
  intros Hsp Hc. cbn [Num.skip_space]. rewrite Hsp.
  destruct r as [|c1 r1]; [done|].
  replace (Num.code c =? 194) with false by lia. cbn [andb].
  destruct r1 as [|c2 r2]; [done|].
  replace (Num.is_wide_space (Num.code c) (Num.code c1) (Num.code c2))
    with false; [done|].
  unfold Num.is_wide_space. lia.
Qed.

Lemma parseInt_digits (s : string) :
  all_digits s -> s <> "" -> Num.parseInt s = Num.parse_magnitude s.
Proof.
  intros Hs Hne. destruct s as [|c s]; [done|].
  destruct Hs as [[d Hd] _]. apply digit_in_10_code in Hd.
  unfold Num.parseInt. rewrite skip_space_stops;
    [|unfold Num.is_space; cbv zeta; lia|lia].
  destruct (Ascii.eqb_spec c "-") as [->|_];
    [change (Num.code "-") with 45 in Hd; lia|].
  destruct (Ascii.eqb_spec c "+") as [->|_];
    [change (Num.code "+") with 43 in Hd; lia|done].
Qed.

Lemma log2_fuel (m : Z) :
  0 <= m -> 0 <= m < 10 * 2 ^ Z.of_nat (Z.to_nat (Z.log2 m)).
Proof.
  intros Hm. rewrite Z2Nat.id by apply Z.log2_nonneg.
  destruct (Z.eq_dec m 0) as [->|Hne]; [simpl; lia|].
  pose proof (Z.log2_spec m ltac:(lia)) as [_ Hup].
  rewrite Z.pow_succ_r in Hup by apply Z.log2_nonneg. lia.
Qed.

(** Reading back the text of an integer gives that integer: the guard
    on which the cache expiry rests. *)
Lemma parseInt_toString (n : Z) : Num.parseInt (Num.toString n) = Some n.
Proof.
  unfold Num.toString.
  set (m := Z.abs n). set (ds := Num.digits _ m "").
  assert (Hds : Num.parse_magnitude ds = Some m).
  { unfold ds. rewrite parse_magnitude_digits
      by (apply digits_all_digits || apply digits_nonempty).
    f_equal. apply parse_digits_digits, log2_fuel. lia. }
  destruct (Z.ltb_spec n 0) as [Hneg|Hpos].
  - unfold Num.parseInt.
    rewrite skip_space_stops by (done || (change (Num.code "-") with 45; lia)).
    change (Ascii.eqb "-" "-") with true. cbv iota.
    rewrite Hds. simpl. f_equal. lia.
  - rewrite parseInt_digits
      by (apply digits_all_digits || apply digits_nonempty).
    rewrite Hds. f_equal. lia.
Qed.

Lemma toString_truthy (n : Z) : truthy (Some (Num.toString n)) = true.
Proof.
  unfold truthy, Num.toString.
  destruct (n <? 0); [done|].
  pose proof (digits_nonempty (Z.to_nat (Z.log2 (Z.abs n))) (Z.abs n) "").
  by destruct (Num.digits _ _ _).
Qed.

(** [parseInt] reads a number behind Unicode white space. *)
Lemma parseInt_skips_no_break_space :
  Num.parseInt padded_timestamp = Some 1750000000000.
Proof. reflexivity. Qed.

Lemma to_double_safe (z : Z) : Z.abs z < 2 ^ 53 -> Num.to_double z = z.
Proof.
  intros Hz. unfold Num.to_double.
  by destruct (Z.ltb_spec (Z.abs z) (2 ^ 53)); [|lia].
Qed.

Lemma to_double_large (z : Z) : 2 ^ 53 <= z -> 2 ^ 53 <= Num.to_double z.
Proof.
  intros Hz. unfold Num.to_double. rewrite Z.abs_eq by lia.
  destruct (Z.ltb_spec z (2 ^ 53)); [lia|]. cbv zeta.
  assert (Hlog : Z.log2 (2 ^ 53) <= Z.log2 z) by (apply Z.log2_le_mono; lia).
  change (Z.log2 (2 ^ 53)) with 53 in Hlog.
  destruct (Z.log2_spec z) as [Hlo _]; [lia|].
  set (e := Z.log2 z - 52) in *.
  assert (Hpow : 2 ^ Z.log2 z = 2 ^ 52 * 2 ^ e).
  { rewrite <- Z.pow_add_r by lia. f_equal. lia. }
  assert (Htwo : 2 ^ 1 <= 2 ^ e) by (apply Z.pow_le_mono_r; lia).
  assert (Hq : 2 ^ 52 <= z / 2 ^ e) by (apply Z.div_le_lower_bound; lia).
  rewrite Z.sgn_pos by lia.
  set (q := z / 2 ^ e) in *. set (p := 2 ^ e) in *.
  destruct (_ <? _); [|destruct (_ <? _); [|destruct (Z.even q)]]; nia.
Qed.

Lemma to_double_opp (z : Z) : Num.to_double (- z) = - Num.to_double z.
Proof.
  unfold Num.to_double. rewrite Z.abs_opp, Z.sgn_opp.
  destruct (Z.abs z <? 2 ^ 53); [done|]. cbv zeta. lia.
Qed.

Lemma to_double_small (z : Z) : z <= - 2 ^ 53 -> Num.to_double z <= - 2 ^ 53.
Proof.
  intros Hz. pose proof (to_double_large (- z)) as Hl.
  rewrite to_double_opp in Hl. lia.
Qed.

(** The test of the mount effect does not see the rounding: with the
    timestamp and the age rounded to doubles as the engine has them,
    the comparison with 24 hours comes out as it does on the exact
    integers, whatever the timestamp. *)
Lemma expiry_test_unaffected_by_rounding (now : Z) (timestamp : option Z) :
  Z.abs now <= Num.max_time ->
  Num.lt (option_map Num.to_double
            (Num.sub now (option_map Num.to_double timestamp)))
    (24 * 60 * 60 * 1000)
  = Num.lt (Num.sub now timestamp) (24 * 60 * 60 * 1000).
Proof.
  unfold Num.max_time. intros Hnow. destruct timestamp as [z|]; [|done].
  cbn [option_map Num.sub Num.lt].
  assert (Hround : forall d,
            (Num.to_double d <? 24 * 60 * 60 * 1000)
            = (d <? 24 * 60 * 60 * 1000)).
  { intros d. destruct (Z_lt_le_dec (Z.abs d) (2 ^ 53)) as [Hs|Hb].
    - by rewrite to_double_safe.
    - destruct (Z_lt_le_dec d 0) as [Hneg|Hpos].
      + pose proof (to_double_small d). lia.
      + pose proof (to_double_large d). lia. }
  rewrite Hround. destruct (Z_lt_le_dec (Z.abs z) (2 ^ 53)) as [Hs|Hb].
  - by rewrite to_double_safe.
  - destruct (Z_lt_le_dec z 0) as [Hneg|Hpos].
    + pose proof (to_double_small z). lia.
    + pose proof (to_double_large z). lia.
Qed.

(** ** The local cache *)

Local Open Scope action_scope.

Create HintDb handlers discriminated.

#[local] Hint Unfold exec selectFile reader_onload handleFileSelect
  handleRemoveImage loadCachedImage stopCamera capturePhoto handleCameraClick
  activateCamera commit_stream_effect stream_effect_cleanup unmount
  handleFaceAging handleFaceAging_request handleFaceAging_settled
  face_aging_failed call_onImageUpload when alert console_error
  setUploadedImage setUploadedFile setIsLoading setShowCamera setStream
  setFaceAgingResult setIsProcessingAging typeof_window_defined
  localStorage_setItem localStorage_getItem localStorage_removeItem
  and_then getUserMedia stop_tracks modify emit get bind ret : handlers.

(** Run a handler symbolically: unfold the monad and project the
    records. *)
Ltac run :=
  repeat (progress autounfold with handlers);
  cbn [fst snd st window_defined localStorage live events
       uploadedImage uploadedFile isLoading showCamera stream faceAgingResult
       isProcessingAging].

Ltac run_in H :=
  repeat (progress autounfold with handlers in H);
  cbn [fst snd st window_defined localStorage live events
       uploadedImage uploadedFile isLoading showCamera stream faceAgingResult
       isProcessingAging] in H.

Lemma exec_seq {A B} (a : M A) (b : M B) (s : Sys) :
  exec (a ;; b) s = exec b (exec a s).
Proof. unfold exec, bind. by destruct (a s). Qed.

Lemma readAsDataURL_truthy (file : File) :
  truthy (Some (readAsDataURL file)) = true.
Proof. reflexivity. Qed.

(** What the completion of a read does to the system when the browser
    accepts both writes. *)
Lemma reader_onload_exec `{Quota} `{JSON} (props : Props) (file : File)
    (now : Z) (s : Sys) :
  (window_defined s = true -> stores file now s = true) ->
  exec (reader_onload props file now) s =
  mkSys
    (mkState (Some (readAsDataURL file)) (Some file) false
       (showCamera (st s)) (stream (st s)) (faceAgingResult (st s))
       (isProcessingAging (st s)))
    (window_defined s)
    (if window_defined s then
       <["cachedImageTimestamp" := Num.toString now]>
         (<["cachedImage" := readAsDataURL file]> (localStorage s))
     else localStorage s)
    (live s)
    (if onImageUpload props
     then events s ++ [OnImageUpload (readAsDataURL file)]
     else events s).
Proof.
  intros Hfits. destruct s as [c w ls lv ev]. unfold stores in Hfits.
  cbn [window_defined localStorage] in Hfits.
  destruct w; [|run; by destruct (onImageUpload props)].
  apply andb_true_iff in Hfits as [Himage Hstamp]; [|done].
  run. rewrite Himage. run. rewrite Hstamp.
  by destruct (onImageUpload props).
Qed.

(** What it does when the browser refuses the image: the two state
    updates stand, nothing is stored, the callback is not called and
    the loading flag is not reset. *)
Lemma reader_onload_refused `{Quota} `{JSON} (props : Props) (file : File)
    (now : Z) (s : Sys) :
  window_defined s = true ->
  fits (<["cachedImage" := readAsDataURL file]> (localStorage s)) = false ->
  exec (reader_onload props file now) s =
  mkSys
    (mkState (Some (readAsDataURL file)) (Some file) (isLoading (st s))
       (showCamera (st s)) (stream (st s)) (faceAgingResult (st s))
       (isProcessingAging (st s)))
    true (localStorage s) (live s) (events s).
Proof.
  intros Hw Hfits. destruct s as [c w ls lv ev].
  cbn [window_defined localStorage] in Hw, Hfits. subst w. run.
  by rewrite Hfits.
Qed.

Lemma selectFile_exec `{Quota} `{JSON} (props : Props) (file : File)
    (now : Z) (s : Sys) :
  String.prefix "image/" (file_type file) = true ->
  (window_defined s = true -> stores file now s = true) ->
  exec (selectFile props file now) s = exec (reader_onload props file now) s.
Proof.
  intros Himg Hfits. destruct s as [c w ls lv ev]. unfold stores in Hfits.
  cbn [window_defined localStorage] in Hfits.
  destruct w; [|run; rewrite Himg; by destruct (onImageUpload props)].
  apply andb_true_iff in Hfits as [Himage Hstamp]; [|done].
  run. rewrite Himg. cbn [negb]. run. rewrite Himage. run. rewrite Hstamp.
  by destruct (onImageUpload props).
Qed.

Lemma selectFile_rejected `{Quota} `{JSON} (props : Props) (file : File)
    (now : Z) (s : Sys) :
  String.prefix "image/" (file_type file) = false ->
  exec (selectFile props file now) s =
  mkSys (st s) (window_defined s) (localStorage s) (live s)
    (events s ++ [Alert "Please select an image file"]).
Proof. intros Himg. run. by rewrite Himg. Qed.

(** The mount effect on an entry that is younger than 24 hours. *)
Lemma loadCachedImage_fresh `{JSON} (props : Props) (now written : Z)
    (imageUrl : string) (s : Sys) :
  window_defined s = true ->
  localStorage s !! "cachedImage" = Some imageUrl ->
  truthy (Some imageUrl) = true ->
  localStorage s !! "cachedImageTimestamp" = Some (Num.toString written) ->
  now - written < 86400000 ->
  exec (loadCachedImage props now) s =
  mkSys
    (mkState (Some imageUrl) (uploadedFile (st s)) (isLoading (st s))
       (showCamera (st s)) (stream (st s)) (faceAgingResult (st s))
       (isProcessingAging (st s)))
    true (localStorage s) (live s)
    (if onImageUpload props then events s ++ [OnImageUpload imageUrl]
     else events s).
Proof.
  intros Hw Himg Ht Hts Hage. destruct s as [c w ls lv ev].
  cbn in Hw, Himg, Hts. subst w. run.
  rewrite Himg, Hts, Ht, toString_truthy. cbn [andb default from_option id].
  rewrite parseInt_toString. cbn [Num.sub Num.lt option_map].
  replace (now - written <? 24 * 60 * 60 * 1000) with true by lia.
  by destruct (onImageUpload props).
Qed.

(** The mount effect on an entry that is 24 hours old or older. *)
Lemma loadCachedImage_expired `{JSON} (props : Props) (now written : Z)
    (imageUrl : string) (s : Sys) :
  window_defined s = true ->
  localStorage s !! "cachedImage" = Some imageUrl ->
  truthy (Some imageUrl) = true ->
  localStorage s !! "cachedImageTimestamp" = Some (Num.toString written) ->
  86400000 <= now - written ->
  exec (loadCachedImage props now) s =
  mkSys (st s) true
    (delete "cachedImageTimestamp" (delete "cachedImage" (localStorage s)))
    (live s) (events s).
Proof.
  intros Hw Himg Ht Hts Hage. destruct s as [c w ls lv ev].
  cbn in Hw, Himg, Hts. subst w. run.
  rewrite Himg, Hts, Ht, toString_truthy. cbn [andb default from_option id].
  rewrite parseInt_toString. cbn [Num.sub Num.lt option_map].
  by replace (now - written <? 24 * 60 * 60 * 1000) with false by lia.
Qed.

(** The two keys after a write at time [written]. *)
Lemma written_entry `{Quota} `{JSON} (props : Props) (file : File)
    (written : Z) (s : Sys) :
  window_defined s = true ->
  stores file written s = true ->
  let s1 := exec (reader_onload props file written) s in
  localStorage s1 !! "cachedImage" = Some (readAsDataURL file) /\
  localStorage s1 !! "cachedImageTimestamp" = Some (Num.toString written).
Proof.
  intros Hw Hfits s1. unfold s1. rewrite reader_onload_exec, Hw by done.
  cbn [localStorage]. split.
  - rewrite lookup_insert_ne by done. apply lookup_insert_eq.
  - apply lookup_insert_eq.
Qed.

(** C4.  A cache entry written at time [written] (the browser accepted
    the write) and read by the mount effect at time [now]: strictly
    before [written + 24h] the stored data URL is restored into the
    component (and passed to the upload callback when there is one) and
    the entry stays; at [written + 24h + 1ms] or later nothing is
    restored and both cache keys are removed. *)
Theorem cache_entry_expires_after_24h `{Quota} `{JSON} (props props' : Props)
    (file : File) (written now : Z) (s s' : Sys) :
  window_defined s = true ->
  stores file written s = true ->
  window_defined s' = true ->
  localStorage s' = localStorage (exec (reader_onload props file written) s) ->
  let r := exec (loadCachedImage props' now) s' in
  (now < written + 86400000 ->
     uploadedImage (st r) = Some (readAsDataURL file) /\
     events r = (if onImageUpload props'
                 then events s' ++ [OnImageUpload (readAsDataURL file)]
                 else events s')%list /\
     localStorage r = localStorage s') /\
  (written + 86400000 + 1 <= now ->
     localStorage r !! "cachedImage" = None /\
     localStorage r !! "cachedImageTimestamp" = None /\
     st r = st s' /\
     events r = events s').
Proof.
  intros Hw Hfits Hw' Hls r.
  destruct (written_entry props file written s Hw Hfits) as [Himg Hts].
  rewrite <- Hls in Himg, Hts.
  split; intros Hnow; unfold r.
  - rewrite (loadCachedImage_fresh props' now written (readAsDataURL file))
      by (done || lia).
    done.
  - rewrite (loadCachedImage_expired props' now written (readAsDataURL file))
      by (done || lia).
    cbn [localStorage st events]. repeat split.
    + rewrite lookup_delete_ne by done. apply lookup_delete_eq.
    + apply lookup_delete_eq.
Qed.

Lemma cache_entry_expires_after_24h_witness :
  let s' := mkSys initialState true
              (localStorage
                 (exec (reader_onload sample_props portrait 1750000000000)
                    browser0)) ∅ [] in
  window_defined browser0 = true /\
  stores portrait 1750000000000 browser0 = true /\
  1750003600000 < 1750000000000 + 86400000 /\
  uploadedImage (st (exec (loadCachedImage sample_props 1750003600000) s'))
  = Some (readAsDataURL portrait).
Proof.
  intros s'. split; [reflexivity|]. split; [vm_compute; reflexivity|].
  split; [lia|].
  assert (Hfits : stores portrait 1750000000000 browser0 = true)
    by (vm_compute; reflexivity).
  refine (proj1 (proj1 (cache_entry_expires_after_24h sample_props
            sample_props portrait 1750000000000 1750003600000 browser0 s'
            eq_refl Hfits eq_refl eq_refl) _)).
  lia.
Defined.

(** The boundary itself: an entry that is exactly 24 hours old is
    already purged. *)
Lemma cache_entry_purged_at_24h `{Quota} `{JSON} (props props' : Props)
    (file : File) (written : Z) (s : Sys) :
  window_defined s = true ->
  stores file written s = true ->
  let s1 := exec (reader_onload props file written) s in
  let r := exec (loadCachedImage props' (written + 86400000)) s1 in
  localStorage r !! "cachedImage" = None /\
  localStorage r !! "cachedImageTimestamp" = None.
Proof.
  intros Hw Hfits s1 r.
  destruct (written_entry props file written s Hw Hfits) as [Himg Hts].
  unfold r. rewrite (loadCachedImage_expired props' _ written
                       (readAsDataURL file)); try done; try lia.
  - cbn [localStorage]. split.
    + rewrite lookup_delete_ne by done. apply lookup_delete_eq.
    + apply lookup_delete_eq.
  - unfold s1. by rewrite reader_onload_exec.
Qed.

(** When the browser accepts the write, [selectFile] followed, less
    than 24 hours later and with no cache operation in between, by the
    cache read of the mount effect restores exactly the data URL that
    [selectFile] produced. *)
Lemma selectFile_then_read_within_quota `{Quota} `{JSON}
    (props props' : Props) (file : File) (written now : Z) (s s' : Sys) :
  String.prefix "image/" (file_type file) = true ->
  window_defined s = true ->
  stores file written s = true ->
  window_defined s' = true ->
  localStorage s' = localStorage (exec (selectFile props file written) s) ->
  now - written < 86400000 ->
  let s1 := exec (selectFile props file written) s in
  let r := exec (loadCachedImage props' now) s' in
  uploadedImage (st s1) = Some (readAsDataURL file) /\
  localStorage s1 !! "cachedImage" = Some (readAsDataURL file) /\
  uploadedImage (st r) = uploadedImage (st s1) /\
  (onImageUpload props' = true ->
   events r = (events s' ++ [OnImageUpload (readAsDataURL file)])%list).
Proof.
  intros Himg Hw Hfits Hw' Hls Hnow s1 r.
  unfold s1. rewrite selectFile_exec in Hls |- * by done.
  destruct (written_entry props file written s Hw Hfits) as [Hi Hts].
  split; [by rewrite reader_onload_exec|]. split; [done|].
  rewrite <- Hls in Hi, Hts. unfold r.
  rewrite (loadCachedImage_fresh props' now written (readAsDataURL file))
    by done.
  rewrite reader_onload_exec by done. cbn [st uploadedImage events].
  split; [done|]. by intros ->.
Qed.

(** C7.  The round trip fails for an image that the storage quota does
    not admit: [setItem] throws inside [reader.onload], where nothing
    catches it, so [selectFile] shows the image but stores nothing, does
    not call the upload callback and leaves the loading flag on; a page
    load, even at once, then restores the entry that was there before,
    and nothing at all when there was none. *)
Theorem selectFile_over_quota_is_not_cached `{Quota} `{JSON}
    (props props' : Props) (file : File) (written now : Z) (s : Sys) :
  String.prefix "image/" (file_type file) = true ->
  window_defined s = true ->
  fits (<["cachedImage" := readAsDataURL file]> (localStorage s)) = false ->
  let s1 := exec (selectFile props file written) s in
  let r := exec (loadCachedImage props' now) (mounted_on (localStorage s1)) in
  uploadedImage (st s1) = Some (readAsDataURL file) /\
  localStorage s1 = localStorage s /\
  events s1 = events s /\
  isLoading (st s1) = true /\
  (localStorage s !! "cachedImage" = None ->
   uploadedImage (st r) = None /\ events r = []).
Proof.
  intros Himg Hw Hfits s1 r.
  assert (Hs1 : s1 =
    mkSys
      (mkState (Some (readAsDataURL file)) (Some file) true
         (showCamera (st s)) (stream (st s)) (faceAgingResult (st s))
         (isProcessingAging (st s)))
      true (localStorage s) (live s) (events s)).
  { unfold s1. destruct s as [c w ls lv ev].
    cbn [window_defined localStorage] in Hw, Hfits. subst w.
    run. rewrite Himg. cbn [negb fst snd st window_defined localStorage].
    by rewrite Hfits. }
  unfold r. rewrite Hs1. cbn [st localStorage events uploadedImage isLoading].
  do 4 (split; [reflexivity|]). intros Hnone.
  assert (Hnoop : exec (loadCachedImage props' now)
                    (mounted_on (localStorage s))
                  = mounted_on (localStorage s)).
  { destruct (window_defined (mounted_on (localStorage s))) eqn:Hm; [|done].
    unfold mounted_on. run. by rewrite Hnone. }
  by rewrite Hnoop.
Qed.

Lemma selectFile_over_quota_is_not_cached_witness :
  let s1 :=
    exec (selectFile (H := cramped) sample_props portrait 1750000000000)
      browser0 in
  String.prefix "image/" (file_type portrait) = true /\
  fits (Quota := cramped)
    (<["cachedImage" := readAsDataURL portrait]> (localStorage browser0))
  = false /\
  uploadedImage (st s1) = Some (readAsDataURL portrait) /\
  localStorage s1 = ∅ /\
  uploadedImage
    (st (exec (loadCachedImage sample_props 1750000000001)
           (mounted_on (localStorage s1))))
  = None.
Proof.
  intros s1. split; [reflexivity|]. split; [vm_compute; reflexivity|].
  assert (Hfits : fits (Quota := cramped)
            (<["cachedImage" := readAsDataURL portrait]>
               (localStorage browser0)) = false) by (vm_compute; reflexivity).
  pose proof (selectFile_over_quota_is_not_cached (H := cramped) sample_props
                sample_props portrait 1750000000000 1750000000001 browser0
                eq_refl eq_refl Hfits) as (Hshown & Hstored & _ & _ & Hread).
  split; [exact Hshown|]. split; [exact Hstored|].
  exact (proj1 (Hread eq_refl)).
Defined.

(** ** Removing and replacing the image *)

(** C6.  After [handleRemoveImage] both cache keys are absent, the
    image, its file and the prediction are cleared, and the upload
    callback, when the parent passed one, has been called once with the
    empty string. *)
Theorem handleRemoveImage_clears `{JSON} (props : Props) (s : Sys) :
  window_defined s = true ->
  let s' := exec (handleRemoveImage props) s in
  localStorage s' !! "cachedImage" = None /\
  localStorage s' !! "cachedImageTimestamp" = None /\
  uploadedImage (st s') = None /\
  uploadedFile (st s') = None /\
  faceAgingResult (st s') = None /\
  events s' = (if onImageUpload props
               then events s ++ [OnImageUpload ""]
               else events s)%list.
Proof.
  intros Hw. destruct s as [c w ls lv ev]. cbn in Hw. subst w.
  unfold handleRemoveImage, call_onImageUpload.
  destruct (onImageUpload props); run; repeat split;
    try apply lookup_delete_eq;
    (rewrite lookup_delete_ne by done; apply lookup_delete_eq).
Qed.

Lemma handleRemoveImage_clears_witness :
  let s1 := exec (selectFile sample_props portrait 1750000000000) browser0 in
  window_defined s1 = true /\
  localStorage s1 !! "cachedImage" = Some (readAsDataURL portrait) /\
  localStorage (exec (handleRemoveImage sample_props) s1) !! "cachedImage"
  = None /\
  events (exec (handleRemoveImage sample_props) s1)
  = [OnImageUpload (readAsDataURL portrait); OnImageUpload ""].
Proof.
  intros s1. split; [reflexivity|]. split; [vm_compute; reflexivity|].
  pose proof (handleRemoveImage_clears sample_props s1 eq_refl) as Hc.
  split; [apply Hc|].
  destruct Hc as (_ & _ & _ & _ & _ & ->). reflexivity.
Defined.

(** Case analysis on the branches of [selectFile] and of the read it
    starts. *)
Ltac selectFile_cases props file :=
  run;
  destruct (String.prefix "image/" (file_type file)); cbn [negb]; run;
  try match goal with
      | |- context [if ?w then _ else _] => is_var w; destruct w; run
      end;
  repeat match goal with
         | |- context [fits ?stored] => destruct (fits stored); run
         end;
  destruct (onImageUpload props); run.

(** [selectFile] never writes [faceAgingResult], opens or closes the
    camera, or touches the streams, whatever the browser does with the
    cache writes. *)
Lemma selectFile_faceAgingResult `{Quota} `{JSON} (props : Props)
    (file : File) (now : Z) (s : Sys) :
  faceAgingResult (st (exec (selectFile props file now) s))
  = faceAgingResult (st s).
Proof. destruct s as [c w ls lv ev]. selectFile_cases props file; done. Qed.

Lemma selectFile_camera `{Quota} `{JSON} (props : Props) (file : File)
    (now : Z) (s : Sys) :
  let s' := exec (selectFile props file now) s in
  showCamera (st s') = showCamera (st s) /\ stream (st s') = stream (st s) /\
  live s' = live s /\ window_defined s' = window_defined s.
Proof. destruct s as [c w ls lv ev]. selectFile_cases props file; done. Qed.

(** An image file is shown whether or not it could be cached. *)
Lemma selectFile_shows `{Quota} `{JSON} (props : Props) (file : File)
    (now : Z) (s : Sys) :
  String.prefix "image/" (file_type file) = true ->
  let s' := exec (selectFile props file now) s in
  uploadedImage (st s') = Some (readAsDataURL file) /\
  uploadedFile (st s') = Some file.
Proof.
  intros Himg. destruct s as [c w ls lv ev]. run. rewrite Himg. cbn [negb].
  run. destruct w; run;
    repeat match goal with
           | |- context [fits ?stored] => destruct (fits stored); run
           end;
    destruct (onImageUpload props); run; done.
Qed.

(** The parts of C1 that the code does perform: the cache write and the
    call of the upload callback. *)
Lemma selectFile_writes_and_notifies `{Quota} `{JSON} (props : Props)
    (file : File) (now : Z) (s : Sys) :
  String.prefix "image/" (file_type file) = true ->
  window_defined s = true ->
  stores file now s = true ->
  let s' := exec (selectFile props file now) s in
  uploadedImage (st s') = Some (readAsDataURL file) /\
  localStorage s' !! "cachedImage" = Some (readAsDataURL file) /\
  localStorage s' !! "cachedImageTimestamp" = Some (Num.toString now) /\
  events s' = (if onImageUpload props
               then events s ++ [OnImageUpload (readAsDataURL file)]
               else events s)%list.
Proof.
  intros Himg Hw Hfits s'. unfold s'. rewrite selectFile_exec by done.
  destruct (written_entry props file now s Hw Hfits) as [Hi Hts].
  repeat split; try done; by rewrite reader_onload_exec.
Qed.

(** C1.  [selectFile] of an image file writes the cache (when the
    browser accepts the write) and notifies the upload callback, but it
    does not clear the prediction: a prediction stored before the call
    is still stored after it, and it is that stale prediction, not the
    new image, that the component shows. *)
Theorem selectFile_keeps_stale_prediction `{Quota} `{JSON} (props : Props)
    (file : File) (now : Z) (s : Sys) (stale : string) :
  String.prefix "image/" (file_type file) = true ->
  window_defined s = true ->
  showCamera (st s) = false ->
  faceAgingResult (st s) = Some stale ->
  truthy (Some stale) = true ->
  let s' := exec (selectFile props file now) s in
  uploadedImage (st s') = Some (readAsDataURL file) /\
  (stores file now s = true ->
   localStorage s' !! "cachedImage" = Some (readAsDataURL file)) /\
  faceAgingResult (st s') = Some stale /\
  render (st s') = ImageView (Some stale).
Proof.
  intros Himg Hw Hcam Hstale Htruthy s'.
  destruct (selectFile_shows props file now s Himg) as [Hurl _].
  destruct (selectFile_camera props file now s) as (Hshow & _).
  pose proof (selectFile_faceAgingResult props file now s) as Hkept.
  fold s' in Hurl, Hshow, Hkept. rewrite Hstale in Hkept.
  rewrite Hcam in Hshow.
  split; [done|]. split.
  { intros Hfits.
    by destruct (selectFile_writes_and_notifies props file now s Himg Hw
                   Hfits) as (_ & Hcache & _). }
  split; [done|].
  unfold render, js_or. by rewrite Hurl, Hkept, Htruthy, Hshow.
Qed.

(** The state in which C1 fails is reached from a fresh component: a
    prediction is requested for a first image, the image is removed
    while the request is in flight, the answer arrives, and a second
    image is selected. *)
Lemma selectFile_keeps_stale_prediction_witness :
  let answer :=
    Returned (E := string)
      (mkHttpResponse true "OK" (Returned (Some old_prediction))) in
  let s :=
    exec (selectFile sample_props portrait 1750000000000 ;;
          handleFaceAging_request sample_props ;;
          handleRemoveImage sample_props ;;
          handleFaceAging_settled answer) browser0 in
  let s' := exec (selectFile sample_props second_portrait 1750000060000) s in
  uploadedImage (st s) = None /\
  faceAgingResult (st s) = Some old_prediction /\
  uploadedImage (st s') = Some (readAsDataURL second_portrait) /\
  faceAgingResult (st s') = Some old_prediction /\
  render (st s') = ImageView (Some old_prediction).
Proof.
  intros answer s s'.
  split; [reflexivity|]. split; [reflexivity|].
  pose proof (selectFile_keeps_stale_prediction sample_props second_portrait
                1750000060000 s old_prediction
                eq_refl eq_refl eq_refl eq_refl eq_refl)
    as (Hurl & _ & Hkept & Hshown).
  repeat split; assumption.
Defined.

(** ** The camera *)

(** X16.  Disposal leaves no stream live. *)
Lemma unmount_stops_stream (s : Sys) :
  live s ⊆ held_streams (st s) -> live (exec unmount s) = ∅.
Proof.
  destruct s as [c w ls lv ev]. unfold held_streams. cbn [st live].
  intros Hlive. run. apply leibniz_equiv. apply elem_of_equiv_empty.
  intros x. destruct (stream c) as [m|]; run.
  - rewrite elem_of_difference. intros [Hx Hnot]. by apply Hlive in Hx.
  - intros Hx. by apply Hlive, not_elem_of_empty in Hx.
Qed.

(** X13.  [stopCamera] is idempotent. *)
Lemma stopCamera_idempotent (s : Sys) :
  exec (stopCamera ;; stopCamera) s = exec stopCamera s.
Proof.
  rewrite exec_seq.
  destruct s as [[ui uf il sc [m|] fr ip] w ls lv ev]; reflexivity.
Qed.

(** C5, as stated, fails: with a frame of width zero the failure that
    [capturePhoto] reports is not StreamNotReady when the canvas has no
    2D context; the earlier guard returns first. *)
Lemma capturePhoto_without_context_not_StreamNotReady :
  let refs := mkRefs (Some (mkVideo 0 0 true)) (Some (mkCanvas false None)) in
  videoWidth (mkVideo 0 0 true) = 0 /\
  events (exec (capturePhoto refs) browser0)
  = [ConsoleError "Canvas context not available"] /\
  events (exec (capturePhoto refs) browser0)
  <> (events browser0 ++ StreamNotReady)%list.
Proof. vm_compute. repeat split. discriminate. Qed.

(** C5, amended.  When the frame width or height is zero,
    [capturePhoto] starts no read (no image is produced), and leaves the
    component state, the cache and the camera stream as they were; when
    moreover the canvas is mounted and has a 2D context, what it reports
    is StreamNotReady. *)
Theorem capturePhoto_zero_dimensions (refs : Refs) (video : Video) (s : Sys) :
  videoRef refs = Some video ->
  videoWidth video = 0 \/ videoHeight video = 0 ->
  fst (capturePhoto refs s) = None /\
  st (exec (capturePhoto refs) s) = st s /\
  localStorage (exec (capturePhoto refs) s) = localStorage s /\
  live (exec (capturePhoto refs) s) = live s /\
  (forall canvas,
     canvasRef refs = Some canvas -> has_context2d canvas = true ->
     events (exec (capturePhoto refs) s) = (events s ++ StreamNotReady)%list).
Proof.
  intros Hv Hdim. unfold exec, capturePhoto. rewrite Hv.
  assert (Hz : (videoWidth video =? 0) || (videoHeight video =? 0) = true)
    by lia.
  destruct (canvasRef refs) as [canvas|].
  - destruct (has_context2d canvas) eqn:Hctx; cbn [negb]; [rewrite Hz|]; run.
    + repeat split. intros canvas' [= <-] _.
      by rewrite <- app_assoc.
    + repeat split. intros canvas' [= <-]. congruence.
  - run. repeat split. discriminate.
Qed.

Lemma capturePhoto_zero_dimensions_witness :
  let refs := mkRefs (Some (mkVideo 0 720 true)) (Some (mkCanvas true None)) in
  let s := exec (activateCamera (mkRefs None None) (Returned 1%nat)) browser0 in
  videoRef refs = Some (mkVideo 0 720 true) /\
  (videoWidth (mkVideo 0 720 true) = 0 \/
   videoHeight (mkVideo 0 720 true) = 0) /\
  st (exec (capturePhoto refs) s) = st s /\
  events (exec (capturePhoto refs) s) = StreamNotReady.
Proof.
  intros refs s. split; [reflexivity|]. split; [by left|].
  pose proof (capturePhoto_zero_dimensions refs (mkVideo 0 720 true) s
                eq_refl (or_introl eq_refl)) as (_ & Hst & _ & _ & Hev).
  split; [exact Hst|]. exact (Hev (mkCanvas true None) eq_refl eq_refl).
Defined.

Lemma open_over_held (lv : gset MediaStream) (m : MediaStream) :
  lv ⊆ {[m]} -> {[m]} ∪ lv ⊆ {[m]}.
Proof.
  intros Hlv x. rewrite elem_of_union. intros [Hx|Hx]; [done|by apply Hlv].
Qed.

Lemma open_first (lv : gset MediaStream) (m : MediaStream) :
  lv ⊆ ∅ -> {[m]} ∪ lv ⊆ {[m]}.
Proof.
  intros Hlv x. rewrite elem_of_union. intros [Hx|Hx]; [done|].
  by apply Hlv, not_elem_of_empty in Hx.
Qed.

Lemma open_then_stop_prior (lv : gset MediaStream) (m prior : MediaStream) :
  lv ⊆ {[prior]} -> ({[m]} ∪ lv) ∖ {[prior]} ⊆ {[m]}.
Proof.
  intros Hlv x. rewrite elem_of_difference, elem_of_union.
  intros [[Hx|Hx] Hnot]; [done|]. by apply Hlv in Hx.
Qed.

(** [handleCameraClick] and the commit that follows keep the live
    streams within what the component holds. *)
Lemma activateCamera_live (refs : Refs) (outcome : Thrown string MediaStream)
    (s : Sys) :
  live s ⊆ held_streams (st s) ->
  live (exec (activateCamera refs outcome) s)
  ⊆ held_streams (st (exec (activateCamera refs outcome) s)).
Proof.
  destruct s as [c w ls lv ev]. unfold held_streams. cbn [st live].
  intros Hlive. destruct outcome as [m|e].
  - unfold exec, activateCamera, handleCameraClick.
    destruct (videoRef refs) as [video|];
      [destruct (fires_loadedmetadata video)|]; run;
      (destruct (decide (stream c = Some m)) as [Heq|Hne];
       [rewrite Heq in Hlive|destruct (stream c)]; run;
       auto using open_over_held, open_first, open_then_stop_prior).
  - run. case_decide; run; done.
Qed.

Lemma activateCamera_stream (refs : Refs) (m : MediaStream) (s : Sys) :
  stream (st (exec (activateCamera refs (Returned m)) s)) = Some m.
Proof.
  destruct s as [c w ls lv ev].
  unfold exec, activateCamera, handleCameraClick.
  destruct (videoRef refs) as [video|];
    [destruct (fires_loadedmetadata video)|]; run;
    (destruct (decide (stream c = Some m)); [|destruct (stream c)];
     run; done).
Qed.

Lemma held_streams_size (c : State) : (size (held_streams c) <= 1)%nat.
Proof.
  unfold held_streams. destruct (stream c).
  - rewrite size_singleton. lia.
  - rewrite size_empty. lia.
Qed.

(** The handler itself stops nothing: run in a state that still holds
    a stream, it opens the new one beside it, and until the following
    render two streams are live.  The camera button is not rendered in
    such a state. *)
Lemma second_activation_two_live_streams :
  let mounted :=
    mkRefs (Some (mkVideo 1280 720 true)) (Some (mkCanvas true None)) in
  let s1 :=
    exec (activateCamera (mkRefs None None) (Returned 1%nat)) browser0 in
  let s2 := exec (handleCameraClick mounted (Returned 2%nat)) s1 in
  1%nat ∈ live s1 /\
  1%nat ∈ live s2 /\ 2%nat ∈ live s2 /\ size (live s2) = 2%nat.
Proof. vm_compute. repeat split. Qed.

(** If the only stream that can be live is the one the component
    holds, then after an activation has completed, including the render
    it causes, this is so again: at most one stream is live, and a prior
    stream has been stopped by the cleanup of the [stream] effect.  The
    same holds after two activations in succession. *)
Theorem activateCamera_one_live_stream (refs refs' : Refs)
    (outcome outcome' : Thrown string MediaStream) (s : Sys) :
  live s ⊆ held_streams (st s) ->
  let s1 := exec (activateCamera refs outcome) s in
  let s2 :=
    exec (activateCamera refs outcome ;; activateCamera refs' outcome') s in
  (size (live s1) <= 1)%nat /\
  (forall prior m,
     stream (st s) = Some prior -> outcome = Returned m -> prior <> m ->
     prior ∉ live s1) /\
  live s2 ⊆ held_streams (st s2) /\
  (size (live s2) <= 1)%nat.
Proof.
  intros Hlive s1 s2.
  pose proof (activateCamera_live refs outcome s Hlive) as H1.
  pose proof (activateCamera_live refs' outcome' _ H1) as H2.
  fold s1 in H1, H2. unfold s2. rewrite exec_seq. fold s1.
  repeat split.
  - etrans; [apply subseteq_size, H1|apply held_streams_size].
  - intros prior m _ -> Hne Hin. apply H1 in Hin.
    unfold s1, held_streams in Hin. rewrite activateCamera_stream in Hin.
    by apply elem_of_singleton in Hin.
  - done.
  - etrans; [apply subseteq_size, H2|apply held_streams_size].
Qed.

Lemma activateCamera_one_live_stream_witness :
  let none := mkRefs None None in
  live browser0 ⊆ held_streams (st browser0) /\
  (size (live (exec (activateCamera none (Returned 1%nat) ;;
                     activateCamera none (Returned 2%nat)) browser0)) <= 1)%nat.
Proof.
  intros none.
  assert (Hlive : live browser0 ⊆ held_streams (st browser0)) by done.
  split; [exact Hlive|].
  exact (proj2 (proj2 (proj2 (activateCamera_one_live_stream none none
           (Returned 1%nat) (Returned 2%nat) browser0 Hlive)))).
Defined.

(** ** The face-aging route *)

(** A request that passes validation reaches the hosted API with one
    call, whose model is [gpt-image-1]. *)
Lemma POST_validated `{JSON} (env : ProcessEnv)
    (images_edit : ImagesEditParams -> Thrown string ImagesResponse)
    (now_iso : string) (formData : FormData) :
  passes_validation env formData = true ->
  exists parsed,
    JSON_parse (entry_string (FormData_get "smash" formData)) = Some parsed /\
    let params :=
      mkImagesEditParams "gpt-image-1" (FormData_get "image" formData)
        (prompt_of parsed) 1 "1024x1024" "medium" in
    POST env images_edit now_iso (Returned formData) =
    match images_edit params with
    | Threw error => prediction_failed error [params]
    | Returned r =>
        mkHandled
          (NextResponse_json
             (PredictionBody
                (if truthy (first_b64_json r)
                 then Some ("data:image/png;base64,"
                              ++ default "" (first_b64_json r))
                 else None)
                "dall-e-2" now_iso) None)
          [params] []
    end.
Proof.
  unfold passes_validation. rewrite !andb_true_iff, bool_decide_eq_true.
  intros [[[Himg Hsmash] Hkey] [parsed Hparsed]].
  exists parsed. split; [done|]. unfold POST.
  by rewrite Himg, Hsmash, Hkey, Hparsed.
Qed.

(** A request that fails validation never reaches the hosted API. *)
Lemma POST_not_validated `{JSON} (env : ProcessEnv)
    (images_edit : ImagesEditParams -> Thrown string ImagesResponse)
    (now_iso : string) (formData : FormData) :
  passes_validation env formData = false ->
  calls (POST env images_edit now_iso (Returned formData)) = [].
Proof.
  unfold passes_validation, POST. intros Hv.
  destruct (entry_truthy (FormData_get "image" formData)); [|done].
  destruct (entry_truthy (FormData_get "smash" formData)); [|done].
  destruct (truthy (OPENAI_API_KEY env)); [|done].
  destruct (JSON_parse _) as [parsed|]; [|done].
  cbn [andb] in Hv. rewrite bool_decide_eq_false in Hv. by destruct Hv.
Qed.

(** Whenever the hosted API is called, the model asked for is
    [gpt-image-1]. *)
Lemma POST_calls_model `{JSON} (env : ProcessEnv)
    (images_edit : ImagesEditParams -> Thrown string ImagesResponse)
    (now_iso : string) (request : Thrown string FormData) :
  Forall (fun params => edit_model params = "gpt-image-1")
    (calls (POST env images_edit now_iso request)).
Proof.
  destruct request as [formData|error]; [|by constructor].
  destruct (passes_validation env formData) eqn:Hv.
  - destruct (POST_validated env images_edit now_iso formData Hv)
      as (parsed & _ & ->).
    destruct (images_edit _); by repeat constructor.
  - rewrite POST_not_validated by done. constructor.
Qed.

(** C9.  Every success response names the model [dall-e-2], whatever
    the request, while the call to the hosted API that produced it asked
    for [gpt-image-1]. *)
Theorem model_used_is_dall_e_2 `{JSON} (env : ProcessEnv)
    (images_edit : ImagesEditParams -> Thrown string ImagesResponse)
    (now_iso : string) (request : Thrown string FormData) :
  let h := POST env images_edit now_iso request in
  is_success (sent h) = true ->
  (exists prediction,
     body (sent h) = PredictionBody prediction "dall-e-2" now_iso) /\
  (exists params, calls h = [params] /\ edit_model params = "gpt-image-1").
Proof.
  intros h Hok. unfold h in *. clear h.
  destruct request as [formData|error]; [|done].
  destruct (passes_validation env formData) eqn:Hv.
  - destruct (POST_validated env images_edit now_iso formData Hv)
      as (parsed & _ & Heq).
    cbv zeta in Heq. rewrite Heq in Hok |- *.
    destruct (images_edit _) as [r|error]; [|done].
    split; eexists; [reflexivity|]. by split.
  - revert Hok. unfold passes_validation in Hv. unfold POST.
    destruct (entry_truthy (FormData_get "image" formData)); [|done].
    destruct (entry_truthy (FormData_get "smash" formData)); [|done].
    destruct (truthy (OPENAI_API_KEY env)); [|done].
    destruct (JSON_parse _) as [parsed|]; [|done].
    cbn [andb] in Hv. rewrite bool_decide_eq_false in Hv. by destruct Hv.
Qed.

Lemma model_used_is_dall_e_2_witness :
  let env := mkProcessEnv (Some "sk-test") in
  let formData :=
    [("image", FileEntry portrait); ("smash", StringEntry "{}")] in
  let images_edit := fun _ : ImagesEditParams =>
    Returned (E := string) (mkImagesResponse (Some [mkImage (Some "b2xk")])) in
  let h := POST (H := empty_object_json) env images_edit
             "2025-06-15T12:00:00.000Z" (Returned formData) in
  is_success (sent h) = true /\
  exists prediction,
    body (sent h)
    = PredictionBody prediction "dall-e-2" "2025-06-15T12:00:00.000Z".
Proof.
  intros env formData images_edit h. split; [reflexivity|].
  exact (proj1 (model_used_is_dall_e_2 (H := empty_object_json) env
                  images_edit "2025-06-15T12:00:00.000Z" (Returned formData)
                  eq_refl)).
Defined.

(** C2, as stated, fails: a response of the hosted API that carries no
    base64 payload is answered with a success, not with
    PredictionFailed. *)
Lemma payloadless_response_is_success :
  let env := mkProcessEnv (Some "sk-test") in
  let formData :=
    [("image", FileEntry portrait); ("smash", StringEntry "{}")] in
  let malformed := mkImagesResponse (Some []) in
  let images_edit := fun _ : ImagesEditParams =>
    Returned (E := string) malformed in
  let h := POST (H := empty_object_json) env images_edit
             "2025-06-15T12:00:00.000Z" (Returned formData) in
  passes_validation (H := empty_object_json) env formData = true /\
  downstream_outcome images_edit h = Some (Returned malformed) /\
  first_b64_json malformed = None /\
  is_success (sent h) = true /\
  sent h <> PredictionFailed.
Proof. vm_compute. repeat split. discriminate. Qed.

(** The response to a validated request whose downstream call returned
    without payload. *)
Lemma payloadless_response_sent `{JSON} (env : ProcessEnv)
    (images_edit : ImagesEditParams -> Thrown string ImagesResponse)
    (now_iso : string) (formData : FormData) :
  passes_validation env formData = true ->
  forall r,
    downstream_outcome images_edit
      (POST env images_edit now_iso (Returned formData)) = Some (Returned r) ->
    truthy (first_b64_json r) = false ->
    sent (POST env images_edit now_iso (Returned formData))
    = mkNextResponse 200 (PredictionBody None "dall-e-2" now_iso).
Proof.
  intros Hv.
  destruct (POST_validated env images_edit now_iso formData Hv)
    as (parsed & _ & Heq).
  cbv zeta in Heq. rewrite Heq. unfold downstream_outcome.
  destruct (images_edit _) as [r|error] eqn:Hcall;
    cbn [calls prediction_failed]; rewrite Hcall.
  - intros r' [= <-] Hnone. by rewrite Hnone.
  - intros r [=].
Qed.

(** C2, amended.  For a request that passes validation: if the call to
    the hosted API throws, the response is the fixed PredictionFailed
    error, which is not a success and carries nothing of the provider's
    error (that goes to the server console only); if the call returns a
    response without base64 payload, the response is a success whose
    prediction is [null]. *)
Theorem downstream_failure_handling `{JSON} (env : ProcessEnv)
    (images_edit : ImagesEditParams -> Thrown string ImagesResponse)
    (now_iso : string) (formData : FormData) :
  passes_validation env formData = true ->
  let h := POST env images_edit now_iso (Returned formData) in
  (forall error,
     downstream_outcome images_edit h = Some (Threw error) ->
     sent h = PredictionFailed /\
     is_success (sent h) = false /\
     server_console h = ["OpenAI API error: " ++ error]) /\
  (forall r,
     downstream_outcome images_edit h = Some (Returned r) ->
     truthy (first_b64_json r) = false ->
     sent h = mkNextResponse 200 (PredictionBody None "dall-e-2" now_iso)).
Proof.
  intros Hv h. unfold h. clear h.
  destruct (POST_validated env images_edit now_iso formData Hv)
    as (parsed & _ & Heq).
  cbv zeta in Heq. rewrite Heq. unfold downstream_outcome.
  destruct (images_edit _) as [r|error] eqn:Hcall;
    cbn [calls prediction_failed]; rewrite Hcall; split.
  - intros error [=].
  - intros r' [= <-] Hnone. by rewrite Hnone.
  - by intros error' [= <-].
  - intros r [=].
Qed.

Lemma downstream_failure_handling_witness :
  let env := mkProcessEnv (Some "sk-test") in
  let formData :=
    [("image", FileEntry portrait); ("smash", StringEntry "{}")] in
  let images_edit := fun _ : ImagesEditParams =>
    Threw (A := ImagesResponse) "429 insufficient_quota" in
  let h := POST (H := empty_object_json) env images_edit
             "2025-06-15T12:00:00.000Z" (Returned formData) in
  passes_validation (H := empty_object_json) env formData = true /\
  downstream_outcome images_edit h = Some (Threw "429 insufficient_quota") /\
  sent h = PredictionFailed.
Proof.
  intros env formData images_edit h.
  split; [reflexivity|]. split; [reflexivity|].
  exact (proj1 (proj1 (downstream_failure_handling (H := empty_object_json)
                         env images_edit "2025-06-15T12:00:00.000Z" formData
                         eq_refl) "429 insufficient_quota" eq_refl)).
Defined.

(** C3, as stated, fails: with both fields present, a context that is
    not valid JSON and no credential, the response is
    ServiceUnavailable, not MalformedContext; the credential is checked
    first. *)
Lemma invalid_json_without_key_is_ServiceUnavailable :
  let env := mkProcessEnv None in
  let formData :=
    [("image", FileEntry portrait); ("smash", StringEntry "{bad")] in
  let images_edit := fun _ : ImagesEditParams =>
    Threw (A := ImagesResponse) "not called" in
  let h := POST (H := empty_object_json) env images_edit
             "2025-06-15T12:00:00.000Z" (Returned formData) in
  entry_truthy (FormData_get "image" formData) = true /\
  entry_truthy (FormData_get "smash" formData) = true /\
  JSON_parse (JSON := empty_object_json)
    (entry_string (FormData_get "smash" formData)) = None /\
  sent h = ServiceUnavailable /\
  sent h <> MalformedContext.
Proof. vm_compute. repeat split. discriminate. Qed.

(** C3, amended.  For a request in which both the image and the context
    field are present: if the credential is configured and the context
    is not valid JSON, the response is MalformedContext; and the
    response is ServiceUnavailable exactly when the credential is not
    configured, whether or not the context is valid JSON. *)
Theorem validation_order `{JSON} (env : ProcessEnv)
    (images_edit : ImagesEditParams -> Thrown string ImagesResponse)
    (now_iso : string) (formData : FormData) :
  entry_truthy (FormData_get "image" formData) = true ->
  entry_truthy (FormData_get "smash" formData) = true ->
  let h := POST env images_edit now_iso (Returned formData) in
  (truthy (OPENAI_API_KEY env) = true ->
   JSON_parse (entry_string (FormData_get "smash" formData)) = None ->
   sent h = MalformedContext) /\
  (sent h = ServiceUnavailable <-> truthy (OPENAI_API_KEY env) = false).
Proof.
  intros Himg Hsmash h. unfold h, POST. clear h.
  rewrite Himg, Hsmash. cbn [negb orb].
  destruct (truthy (OPENAI_API_KEY env)); cbn [negb].
  - split.
    + by intros _ ->.
    + split; [|done].
      destruct (JSON_parse _) as [parsed|]; [|done].
      destruct (images_edit _); done.
  - split; done.
Qed.

Lemma validation_order_witness :
  let env := mkProcessEnv (Some "sk-test") in
  let formData :=
    [("image", FileEntry portrait); ("smash", StringEntry "{bad")] in
  let images_edit := fun _ : ImagesEditParams =>
    Threw (A := ImagesResponse) "not called" in
  entry_truthy (FormData_get "image" formData) = true /\
  entry_truthy (FormData_get "smash" formData) = true /\
  sent (POST (H := empty_object_json) env images_edit
          "2025-06-15T12:00:00.000Z" (Returned formData))
  = MalformedContext.
Proof.
  intros env formData images_edit.
  split; [reflexivity|]. split; [reflexivity|].
  exact (proj1 (validation_order (H := empty_object_json) env images_edit
                  "2025-06-15T12:00:00.000Z" formData eq_refl eq_refl)
           eq_refl eq_refl).
Defined.

(** A missing field is reported before the credential is looked at. *)
Lemma missing_field_first `{JSON} (env : ProcessEnv)
    (images_edit : ImagesEditParams -> Thrown string ImagesResponse)
    (now_iso : string) (formData : FormData) :
  entry_truthy (FormData_get "image" formData) = false \/
  entry_truthy (FormData_get "smash" formData) = false ->
  sent (POST env images_edit now_iso (Returned formData)) = MissingField.
Proof.
  unfold POST. intros [-> | ->]; [done|].
  by destruct (entry_truthy (FormData_get "image" formData)).
Qed.

(** ** The route and the component together *)

(** C10.  When the hosted API answers the component's request without a
    base64 payload, the route responds 200 with a [null] prediction, and
    [handleFaceAging] stores that [null]: the previous prediction is
    gone and the image shown is the uploaded one again. *)
Theorem payloadless_prediction_clears_result `{JSON} (props : Props)
    (env : ProcessEnv)
    (images_edit : ImagesEditParams -> Thrown string ImagesResponse)
    (now_iso : string) (s : Sys) (file : File) (r : ImagesResponse) :
  uploadedFile (st s) = Some file ->
  let formData :=
    [("image", FileEntry file);
     ("smash", StringEntry (JSON_stringify (smashData props)))] in
  let h := POST env images_edit now_iso (Returned formData) in
  downstream_outcome images_edit h = Some (Returned r) ->
  truthy (first_b64_json r) = false ->
  let s' := exec (handleFaceAging props (fetch_route env images_edit now_iso))
              s in
  sent h = mkNextResponse 200 (PredictionBody None "dall-e-2" now_iso) /\
  faceAgingResult (st s') = None /\
  uploadedImage (st s') = uploadedImage (st s) /\
  js_or (faceAgingResult (st s')) (uploadedImage (st s'))
  = uploadedImage (st s) /\
  (showCamera (st s) = false -> truthy (uploadedImage (st s)) = true ->
   render (st s') = ImageView (uploadedImage (st s))).
Proof.
  intros Hfile formData h Hout Hnone s'.
  assert (Hsent :
    sent h = mkNextResponse 200 (PredictionBody None "dall-e-2" now_iso)).
  { destruct (passes_validation env formData) eqn:Hv.
    - by apply (payloadless_response_sent env images_edit now_iso
                  formData Hv r).
    - unfold downstream_outcome, h in Hout.
      by rewrite POST_not_validated in Hout. }
  split; [done|].
  assert (Hs' : st s' =
    mkState (uploadedImage (st s)) (uploadedFile (st s)) (isLoading (st s))
      (showCamera (st s)) (stream (st s)) None false).
  { unfold s'. destruct s as [[ui uf il sc sm fr ip] w ls lv ev].
    cbn [st uploadedFile] in Hfile. subst uf.
    unfold fetch_route. run.
    change (POST env images_edit now_iso _) with h. rewrite Hsent.
    reflexivity. }
  rewrite Hs'. cbn [faceAgingResult uploadedImage]. repeat split.
  unfold render. cbn [showCamera uploadedImage faceAgingResult].
  by intros -> ->.
Qed.

Lemma payloadless_prediction_clears_result_witness :
  let env := mkProcessEnv (Some "sk-test") in
  let bare := mkImagesResponse None in
  let images_edit := fun _ : ImagesEditParams => Returned (E := string) bare in
  let s :=
    mkSys
      (mkState (Some (readAsDataURL portrait)) (Some portrait) false false
         None (Some old_prediction) false)
      true ∅ ∅ [] in
  uploadedFile (st s) = Some portrait /\
  faceAgingResult (st s) = Some old_prediction /\
  truthy (first_b64_json bare) = false /\
  faceAgingResult
    (st (exec (handleFaceAging sample_props
                 (fetch_route (H := empty_object_json) env images_edit
                    "2025-06-15T12:00:00.000Z")) s))
  = None.
Proof.
  intros env bare images_edit s.
  split; [reflexivity|]. split; [reflexivity|]. split; [reflexivity|].
  exact (proj1 (proj2 (payloadless_prediction_clears_result sample_props env
                         images_edit "2025-06-15T12:00:00.000Z" s portrait
                         bare eq_refl eq_refl eq_refl))).
Defined.

(** ** Worked examples *)

Example toString_epoch : Num.toString 1750000000000 = "1750000000000".
Proof. vm_compute. reflexivity. Qed.

Example toString_negative : Num.toString (-86400001) = "-86400001".
Proof. vm_compute. reflexivity. Qed.

Example parseInt_hex : Num.parseInt "  0x1f" = Some 31.
Proof. vm_compute. reflexivity. Qed.

Example parseInt_prefix : Num.parseInt "12px" = Some 12.
Proof. vm_compute. reflexivity. Qed.

Example parseInt_nan : Num.parseInt "soon" = None.
Proof. vm_compute. reflexivity. Qed.

Example readAsDataURL_portrait :
  readAsDataURL portrait = "data:image/png;base64,TWFu".
Proof. vm_compute. reflexivity. Qed.

Example selectFile_rejects_text :
  exec (selectFile sample_props notes 1750000000000) browser0
  = mkSys initialState true ∅ ∅ [Alert "Please select an image file"].
Proof. vm_compute. reflexivity. Qed.

Example tampered_timestamp_is_purged :
  let stored : gmap string string :=
    <["cachedImageTimestamp" := "soon"]>
      (<["cachedImage" := "data:image/png;base64,TWFu"]> ∅) in
  let s := mkSys initialState true stored ∅ [] in
  localStorage (exec (loadCachedImage sample_props 1750000000000) s) = ∅.
Proof. vm_compute. reflexivity. Qed.

Example padded_timestamp_is_read :
  let stored : gmap string string :=
    <["cachedImageTimestamp" := padded_timestamp]>
      (<["cachedImage" := "data:image/png;base64,TWFu"]> ∅) in
  uploadedImage
    (st (exec (loadCachedImage sample_props 1750003600000)
           (mounted_on stored)))
  = Some "data:image/png;base64,TWFu".
Proof. vm_compute. reflexivity. Qed.

Example missing_smash_field :
  sent (POST (H := empty_object_json) (mkProcessEnv (Some "sk-test"))
          (fun _ => Threw "not called") "2025-06-15T12:00:00.000Z"
          (Returned [("image", FileEntry portrait)]))
  = MissingField.
Proof. reflexivity. Qed.

(** * Further properties of the code *)

#[local] Hint Unfold handleFileChange handler_of perform mounted_on : handlers.

(** As [run], and the boolean tests are computed too. *)
Ltac step :=
  run;
  cbn [fst snd negb andb orb st window_defined localStorage live events
       uploadedImage uploadedFile isLoading showCamera stream faceAgingResult
       isProcessingAging].

(** ** The cache beyond a single entry *)

Lemma handleRemoveImage_removes_keys `{JSON} (props : Props) (s : Sys) :
  window_defined s = true ->
  localStorage (exec (handleRemoveImage props) s) !! "cachedImage" = None /\
  localStorage (exec (handleRemoveImage props) s) !! "cachedImageTimestamp"
  = None.
Proof.
  intros Hw. destruct s as [c w ls lv ev]. cbn in Hw. subst w.
  unfold handleRemoveImage, call_onImageUpload.
  destruct (onImageUpload props); run; split;
    try apply lookup_delete_eq;
    (rewrite lookup_delete_ne by done; apply lookup_delete_eq).
Qed.

Lemma loadCachedImage_incomplete_entry_aux `{JSON} (props : Props) (now : Z)
    (s : Sys) :
  truthy (localStorage s !! "cachedImage")
  && truthy (localStorage s !! "cachedImageTimestamp") = false ->
  exec (loadCachedImage props now) s = s.
Proof.
  intros Hkeys. destruct s as [c w ls lv ev]. cbn [localStorage] in Hkeys.
  run. destruct w; step; [|done]. by rewrite Hkeys.
Qed.

Lemma handleFaceAging_without_file_aux `{JSON} (props : Props)
    (fetch : FormData -> Thrown string HttpResponse) (s : Sys) :
  uploadedFile (st s) = None ->
  exec (handleFaceAging props fetch) s =
  mkSys (st s) (window_defined s) (localStorage s) (live s)
    (events s ++ [Alert "Please upload an image first"]).
Proof.
  intros Hfile. destruct s as [c w ls lv ev]. cbn [st] in Hfile.
  run. rewrite Hfile. reflexivity.
Qed.

(** X1.  A file whose type does not start with [image/] is refused:
    the user is alerted, and the state, the cache and the camera are
    left as they were; the upload callback is not called. *)
Theorem FileChange_rejects_non_image `{Quota} `{JSON} (props : Props)
    (file : File) (others : list File) (now : Z) (s : Sys) :
  String.prefix "image/" (file_type file) = false ->
  exec (perform props (FileChange (Some (file :: others)) now)) s =
  mkSys (st s) (window_defined s) (localStorage s) (live s)
    (events s ++ [Alert "Please select an image file"]).
Proof.
  intros Himg. destruct s as [c w ls lv ev]. run. rewrite Himg. step.
  by rewrite decide_True.
Qed.

Lemma FileChange_rejects_non_image_witness :
  String.prefix "image/" (file_type notes) = false /\
  exec (perform sample_props
          (FileChange (Some [notes; portrait]) 1750000000000))
    browser0
  = mkSys initialState true ∅ ∅ [Alert "Please select an image file"].
Proof.
  split; [reflexivity|].
  exact (FileChange_rejects_non_image sample_props notes [portrait]
           1750000000000 browser0 eq_refl).
Defined.

(** X2.  When either cache key is absent or empty, the mount effect
    does nothing at all: nothing is restored and a key left alone is
    not removed. *)
Theorem loadCachedImage_incomplete_entry `{JSON} (props : Props) (now : Z)
    (s : Sys) :
  truthy (localStorage s !! "cachedImage")
  && truthy (localStorage s !! "cachedImageTimestamp") = false ->
  exec (loadCachedImage props now) s = s.
Proof.
  intros Hkeys. destruct s as [c w ls lv ev]. cbn [localStorage] in Hkeys.
  run. destruct w; step; [|done]. by rewrite Hkeys.
Qed.

Lemma loadCachedImage_incomplete_entry_witness :
  let orphan : gmap string string :=
    <["cachedImageTimestamp" := "1750000000000"]> ∅ in
  truthy (orphan !! "cachedImage")
  && truthy (orphan !! "cachedImageTimestamp") = false /\
  localStorage (exec (loadCachedImage sample_props 1850000000000)
                  (mounted_on orphan)) !! "cachedImageTimestamp"
  = Some "1750000000000".
Proof.
  intros orphan. split; [reflexivity|].
  rewrite (loadCachedImage_incomplete_entry sample_props 1850000000000
             (mounted_on orphan) eq_refl).
  reflexivity.
Defined.



(** X4.  A second [selectFile] whose writes the browser accepts
    overwrites the entry of the first, whether or not the first could be
    stored: the cache then holds the second data URL with the second
    time, and a read less than 24 hours after the second write restores
    the second image, however old the first one was. *)
Theorem selectFile_overwrites_entry `{Quota} `{JSON} (props props' : Props)
    (first second : File) (t1 t2 now : Z) (s : Sys) :
  String.prefix "image/" (file_type first) = true ->
  String.prefix "image/" (file_type second) = true ->
  window_defined s = true ->
  stores second t2 (exec (selectFile props first t1) s) = true ->
  now - t2 < 86400000 ->
  let s2 := exec (selectFile props first t1 ;; selectFile props second t2) s in
  localStorage s2 !! "cachedImage" = Some (readAsDataURL second) /\
  localStorage s2 !! "cachedImageTimestamp" = Some (Num.toString t2) /\
  uploadedImage
    (st (exec (loadCachedImage props' now) (mounted_on (localStorage s2))))
  = Some (readAsDataURL second).
Proof.
  intros H1 H2 Hw Hfits Hnow s2.
  assert (Hw1 : window_defined (exec (selectFile props first t1) s) = true).
  { destruct (selectFile_camera props first t1 s) as (_ & _ & _ & Hsame).
    by rewrite Hsame. }
  destruct (selectFile_writes_and_notifies props second t2 _ H2 Hw1 Hfits)
    as (_ & Hi & Hts & _).
  rewrite <- exec_seq in Hi, Hts. fold s2 in Hi, Hts.
  split; [done|]. split; [done|].
  by rewrite (loadCachedImage_fresh props' now t2 (readAsDataURL second)).
Qed.

Lemma selectFile_overwrites_entry_witness :
  let s2 := exec (selectFile sample_props portrait 1000 ;;
                  selectFile sample_props second_portrait 1750000000000)
              browser0 in
  String.prefix "image/" (file_type second_portrait) = true /\
  stores second_portrait 1750000000000
    (exec (selectFile sample_props portrait 1000) browser0) = true /\
  1750003600000 - 1750000000000 < 86400000 /\
  uploadedImage
    (st (exec (loadCachedImage sample_props 1750003600000)
           (mounted_on (localStorage s2))))
  = Some (readAsDataURL second_portrait).
Proof.
  intros s2. split; [reflexivity|]. split; [vm_compute; reflexivity|].
  split; [lia|].
  assert (Hfits : stores second_portrait 1750000000000
                    (exec (selectFile sample_props portrait 1000) browser0)
                  = true) by (vm_compute; reflexivity).
  refine (proj2 (proj2 (selectFile_overwrites_entry sample_props sample_props
            portrait second_portrait 1000 1750000000000 1750003600000
            browser0 eq_refl eq_refl eq_refl Hfits _))).
  lia.
Defined.

(** X5.  After [handleRemoveImage], a page load finds nothing to
    restore: the mount effect changes nothing and the upload view is
    shown. *)
Theorem remove_then_reload `{JSON} (props props' : Props) (now : Z) (s : Sys) :
  window_defined s = true ->
  let stored := localStorage (exec (handleRemoveImage props) s) in
  exec (loadCachedImage props' now) (mounted_on stored) = mounted_on stored /\
  render (st (exec (loadCachedImage props' now) (mounted_on stored)))
  = UploadView.
Proof.
  intros Hw stored.
  destruct (handleRemoveImage_removes_keys props s Hw) as [Hi _].
  fold stored in Hi.
  assert (Hnoop : exec (loadCachedImage props' now) (mounted_on stored)
                  = mounted_on stored).
  { apply loadCachedImage_incomplete_entry_aux.
    unfold mounted_on. cbn [localStorage]. by rewrite Hi. }
  by rewrite Hnoop.
Qed.

Lemma remove_then_reload_witness :
  let s1 := exec (selectFile sample_props portrait 1750000000000) browser0 in
  let stored := localStorage (exec (handleRemoveImage sample_props) s1) in
  window_defined s1 = true /\
  render (st (exec (loadCachedImage sample_props 1750000060000)
                (mounted_on stored)))
  = UploadView.
Proof.
  intros s1 stored. split; [reflexivity|].
  exact (proj2 (remove_then_reload sample_props sample_props 1750000060000
                  s1 eq_refl)).
Defined.

(** Without an uploaded file [handleFaceAging] only alerts: no
    request is sent and no state cell changes. *)
Theorem handleFaceAging_without_file `{JSON} (props : Props)
    (fetch : FormData -> Thrown string HttpResponse) (s : Sys) :
  uploadedFile (st s) = None ->
  exec (handleFaceAging props fetch) s =
  mkSys (st s) (window_defined s) (localStorage s) (live s)
    (events s ++ [Alert "Please upload an image first"]).
Proof.
  intros Hfile. destruct s as [c w ls lv ev]. cbn [st] in Hfile.
  run. rewrite Hfile. reflexivity.
Qed.

Lemma handleFaceAging_without_file_witness :
  uploadedFile (st browser0) = None /\
  events (exec (handleFaceAging sample_props (fun _ => Threw "offline"))
            browser0)
  = [Alert "Please upload an image first"].
Proof.
  split; [reflexivity|].
  by rewrite (handleFaceAging_without_file sample_props
                (fun _ => Threw "offline") browser0 eq_refl).
Defined.

(** X6.  A page load within 24 hours restores the image but not its
    file: the image is shown, yet [handleFaceAging] finds no file,
    alerts the user and sends no request. *)
Theorem reload_restores_image_without_file `{Quota} `{JSON}
    (props props' : Props) (file : File) (written now : Z)
    (fetch : FormData -> Thrown string HttpResponse) (s : Sys) :
  String.prefix "image/" (file_type file) = true ->
  window_defined s = true ->
  stores file written s = true ->
  now - written < 86400000 ->
  let stored := localStorage (exec (selectFile props file written) s) in
  let r := exec (loadCachedImage props' now) (mounted_on stored) in
  render (st r) = ImageView (Some (readAsDataURL file)) /\
  uploadedFile (st r) = None /\
  st (exec (handleFaceAging props' fetch) r) = st r /\
  events (exec (handleFaceAging props' fetch) r)
  = (events r ++ [Alert "Please upload an image first"])%list.
Proof.
  intros Himg Hw Hfits Hnow stored r.
  destruct (selectFile_writes_and_notifies props file written s Himg Hw
              Hfits) as (_ & Hi & Hts & _).
  fold stored in Hi, Hts.
  assert (Hr : st r = mkState (Some (readAsDataURL file)) None false false
                        None None false).
  { unfold r.
    by rewrite
      (loadCachedImage_fresh props' now written (readAsDataURL file)). }
  assert (Hnone : uploadedFile (st r) = None) by by rewrite Hr.
  rewrite (handleFaceAging_without_file_aux props' fetch r Hnone).
  rewrite Hr. repeat split.
Qed.

Lemma reload_restores_image_without_file_witness :
  let stored :=
    localStorage (exec (selectFile sample_props portrait 1750000000000)
                    browser0) in
  let r := exec (loadCachedImage sample_props 1750003600000)
             (mounted_on stored) in
  String.prefix "image/" (file_type portrait) = true /\
  stores portrait 1750000000000 browser0 = true /\
  1750003600000 - 1750000000000 < 86400000 /\
  render (st r) = ImageView (Some (readAsDataURL portrait)) /\
  uploadedFile (st r) = None.
Proof.
  intros stored r. split; [reflexivity|]. split; [vm_compute; reflexivity|].
  split; [lia|].
  assert (Hnow : 1750003600000 - 1750000000000 < 86400000) by lia.
  assert (Hfits : stores portrait 1750000000000 browser0 = true)
    by (vm_compute; reflexivity).
  pose proof (reload_restores_image_without_file sample_props sample_props
                portrait 1750000000000 1750003600000
                (fun _ => Threw "offline") browser0 eq_refl eq_refl Hfits
                Hnow)
    as (Hshown & Hfile & _).
  split; assumption.
Defined.

(** ** Requesting a prediction *)

Lemma handleFaceAging_exec `{JSON} (props : Props)
    (fetch : FormData -> Thrown string HttpResponse) (file : File) (s : Sys) :
  uploadedFile (st s) = Some file ->
  exists log,
    exec (handleFaceAging props fetch) s =
    mkSys
      (mkState (uploadedImage (st s)) (Some file) (isLoading (st s))
         (showCamera (st s)) (stream (st s))
         (match delivered_prediction (fetch (face_aging_form props file)) with
          | Some prediction => prediction
          | None => faceAgingResult (st s)
          end)
         false)
      (window_defined s) (localStorage s) (live s)
      (events s ++ Fetch "/api/face-aging" (face_aging_form props file) :: log)
    /\ (log = [] <->
        is_Some (delivered_prediction (fetch (face_aging_form props file))))
    /\ (log <> [] ->
        last log
        = Some (Alert "Failed to process face aging. Please try again.")).
Proof.
  intros Hfile. destruct s as [[ui uf il sc sm fr ip] w ls lv ev].
  cbn [st uploadedFile] in Hfile. subst uf.
  unfold delivered_prediction, face_aging_form. run.
  destruct (fetch _) as [response|error]; run.
  - destruct (ok response); step.
    + destruct (json_prediction response) as [prediction|error]; run.
      * exists []. split; [done|]. split; [by split|done].
      * eexists [_; _]. rewrite <- !app_assoc. split; [reflexivity|].
        split; [|done]. split; [done|]. by intros [? ?].
    + eexists [_; _]. rewrite <- !app_assoc. split; [reflexivity|].
      split; [|done]. split; [done|]. by intros [? ?].
  - eexists [_; _]. rewrite <- !app_assoc. split; [reflexivity|].
    split; [|done]. split; [done|]. by intros [? ?].
Qed.

(** X7.  However the request ends, [handleFaceAging] with a file sends
    exactly the image and the serialized [smashData] to
    [/api/face-aging], ends with [isProcessingAging] false, and touches
    neither the image, nor the file, nor the cache, nor the camera. *)
Theorem handleFaceAging_frame `{JSON} (props : Props)
    (fetch : FormData -> Thrown string HttpResponse) (file : File) (s : Sys) :
  uploadedFile (st s) = Some file ->
  let s' := exec (handleFaceAging props fetch) s in
  isProcessingAging (st s') = false /\
  uploadedImage (st s') = uploadedImage (st s) /\
  uploadedFile (st s') = uploadedFile (st s) /\
  showCamera (st s') = showCamera (st s) /\
  stream (st s') = stream (st s) /\
  localStorage s' = localStorage s /\
  live s' = live s /\
  exists log,
    events s'
    = (events s
       ++ Fetch "/api/face-aging"
            [("image", FileEntry file);
             ("smash", StringEntry (JSON_stringify (smashData props)))]
       :: log)%list.
Proof.
  intros Hfile s'.
  destruct (handleFaceAging_exec props fetch file s Hfile) as (log & Hs' & _).
  unfold s'. rewrite Hs'. cbn. rewrite Hfile. repeat split. by exists log.
Qed.

Lemma handleFaceAging_frame_witness :
  let s := exec (selectFile sample_props portrait 1750000000000) browser0 in
  uploadedFile (st s) = Some portrait /\
  isProcessingAging
    (st (exec (handleFaceAging sample_props (fun _ => Threw "offline")) s))
  = false /\
  localStorage
    (exec (handleFaceAging sample_props (fun _ => Threw "offline")) s)
  = localStorage s.
Proof.
  intros s. split; [reflexivity|].
  pose proof (handleFaceAging_frame sample_props (fun _ => Threw "offline")
                portrait s eq_refl) as (Hp & _ & _ & _ & _ & Hls & _).
  split; assumption.
Defined.

(** X8.  When the request fails (the fetch is rejected, the response is
    not [ok], or its body cannot be read), the stored prediction is left
    as it was and the last thing the user sees is the failure alert. *)
Theorem handleFaceAging_failure_keeps_prediction `{JSON} (props : Props)
    (fetch : FormData -> Thrown string HttpResponse) (file : File) (s : Sys) :
  uploadedFile (st s) = Some file ->
  delivered_prediction (fetch (face_aging_form props file)) = None ->
  let s' := exec (handleFaceAging props fetch) s in
  faceAgingResult (st s') = faceAgingResult (st s) /\
  last (events s')
  = Some (Alert "Failed to process face aging. Please try again.").
Proof.
  intros Hfile Hfail s'.
  destruct (handleFaceAging_exec props fetch file s Hfile)
    as (log & Hs' & Hlog & Hlast).
  unfold s'. rewrite Hs', Hfail in *. cbn [st faceAgingResult events].
  split; [done|].
  assert (Hne : log <> []).
  { intros Hnil. apply Hlog in Hnil. by destruct Hnil. }
  rewrite last_app_cons. rewrite last_cons.
  rewrite (Hlast Hne). done.
Qed.

Lemma handleFaceAging_failure_keeps_prediction_witness :
  let s :=
    mkSys
      (mkState (Some (readAsDataURL portrait)) (Some portrait) false false
         None (Some old_prediction) false)
      true ∅ ∅ [] in
  let fetch := fun _ : FormData =>
    Returned (E := string)
      (mkHttpResponse false "Internal Server Error" (Returned None)) in
  uploadedFile (st s) = Some portrait /\
  delivered_prediction (fetch (face_aging_form sample_props portrait)) = None /\
  faceAgingResult (st (exec (handleFaceAging sample_props fetch) s))
  = Some old_prediction.
Proof.
  intros s fetch. split; [reflexivity|]. split; [reflexivity|].
  exact (proj1 (handleFaceAging_failure_keeps_prediction sample_props fetch
                  portrait s eq_refl eq_refl)).
Defined.

(** X9.  When the request succeeds, the prediction of the response
    replaces the stored one, nothing is alerted, and a non-empty
    prediction is what the image view shows from then on. *)
Theorem handleFaceAging_success_shows_prediction `{JSON} (props : Props)
    (fetch : FormData -> Thrown string HttpResponse) (file : File) (s : Sys)
    (prediction : option string) :
  uploadedFile (st s) = Some file ->
  delivered_prediction (fetch (face_aging_form props file)) = Some prediction ->
  let s' := exec (handleFaceAging props fetch) s in
  faceAgingResult (st s') = prediction /\
  events s'
  = (events s ++ [Fetch "/api/face-aging" (face_aging_form props file)])%list /\
  (showCamera (st s) = false -> truthy (uploadedImage (st s)) = true ->
   truthy prediction = true -> render (st s') = ImageView prediction).
Proof.
  intros Hfile Hok s'.
  destruct (handleFaceAging_exec props fetch file s Hfile)
    as (log & Hs' & Hlog & _).
  assert (Hnil : log = []) by (apply Hlog; by rewrite Hok).
  unfold s'. rewrite Hs', Hok, Hnil. cbn [st faceAgingResult events].
  repeat split. unfold render, js_or.
  cbn [showCamera uploadedImage faceAgingResult].
  by intros -> -> ->.
Qed.

Lemma handleFaceAging_success_shows_prediction_witness :
  let s := exec (selectFile sample_props portrait 1750000000000) browser0 in
  let fetch := fun _ : FormData =>
    Returned (E := string)
      (mkHttpResponse true "OK" (Returned (Some old_prediction))) in
  uploadedFile (st s) = Some portrait /\
  delivered_prediction (fetch (face_aging_form sample_props portrait))
  = Some (Some old_prediction) /\
  render (st (exec (handleFaceAging sample_props fetch) s))
  = ImageView (Some old_prediction).
Proof.
  intros s fetch. split; [reflexivity|]. split; [reflexivity|].
  exact (proj2 (proj2 (handleFaceAging_success_shows_prediction sample_props
                         fetch portrait s (Some old_prediction)
                         eq_refl eq_refl))
           eq_refl eq_refl eq_refl).
Defined.

(** ** Capturing and cancelling *)

#[local] Hint Unfold held_streams : handlers.

(** X10.  [capturePhoto] itself never writes the cache and never
    changes the image, its file or the prediction, whatever the refs
    and the state: an image only arrives when the read it starts
    completes. *)
Theorem capturePhoto_writes_nothing (refs : Refs) (s : Sys) :
  let s' := exec (capturePhoto refs) s in
  localStorage s' = localStorage s /\
  uploadedImage (st s') = uploadedImage (st s) /\
  uploadedFile (st s') = uploadedFile (st s) /\
  faceAgingResult (st s') = faceAgingResult (st s) /\
  live s' ⊆ live s.
Proof.
  destruct s as [[ui uf il sc sm fr ip] w ls lv ev].
  unfold exec, capturePhoto.
  destruct (videoRef refs) as [video|]; [|by run].
  destruct (canvasRef refs) as [canvas|]; [|by run].
  destruct (has_context2d canvas); [|by run].
  destruct ((videoWidth video =? 0) || (videoHeight video =? 0)); [by run|].
  destruct (toBlob canvas) as [blob|]; [|by run].
  destruct sm as [m|]; run; cbn [file_type];
    change (String.prefix "image/" "image/jpeg") with true;
    step; repeat split; try done.
  apply subseteq_difference_l. done.
Qed.

(** X11.  A capture from a ready stream: the frame becomes the file
    [camera-photo.jpg] of type [image/jpeg], the camera is switched off
    and its stream stopped, and once the read completes the JPEG data
    URL is the image of the component and, the browser accepting the
    write, the content of the cache. *)
Theorem Capture_ready_stream `{Quota} `{JSON} (props : Props) (refs : Refs)
    (video : Video) (canvas : Canvas) (blob : list byte) (now : Z) (s : Sys) :
  videoRef refs = Some video ->
  canvasRef refs = Some canvas ->
  has_context2d canvas = true ->
  videoWidth video <> 0 ->
  videoHeight video <> 0 ->
  toBlob canvas = Some blob ->
  window_defined s = true ->
  stores (mkFile "camera-photo.jpg" "image/jpeg" blob) now s = true ->
  let photo := mkFile "camera-photo.jpg" "image/jpeg" blob in
  let s' := exec (perform props (Capture refs now)) s in
  fst (capturePhoto refs s) = Some photo /\
  uploadedImage (st s')
  = Some ("data:image/jpeg;base64," ++ Base64.encode blob) /\
  uploadedFile (st s') = Some photo /\
  localStorage s' !! "cachedImage" = uploadedImage (st s') /\
  showCamera (st s') = false /\
  stream (st s') = None /\
  (forall m, stream (st s) = Some m -> m ∉ live s').
Proof.
  intros Hv Hc Hctx Hw Hh Hblob Hwin Hfits photo s'.
  destruct s as [[ui uf il sc sm fr ip] w ls lv ev].
  cbn [window_defined] in Hwin. subst w.
  unfold stores in Hfits. cbn [localStorage] in Hfits.
  apply andb_true_iff in Hfits as [Himage Hstamp].
  assert (Hdim : (videoWidth video =? 0) || (videoHeight video =? 0) = false)
    by lia.
  unfold s', exec, perform, handler_of, capturePhoto.
  rewrite Hv, Hc, Hctx, Hblob. cbn [negb]. rewrite Hdim.
  destruct sm as [m|], (onImageUpload props) eqn:Hcb;
    run; cbn [file_type];
    change (String.prefix "image/" "image/jpeg") with true;
    step; rewrite ?Himage; step; rewrite ?Hstamp; step; rewrite ?Hcb; step;
    try (rewrite decide_False by done); try (rewrite decide_True by done);
    step; repeat split; try done;
    try (rewrite lookup_insert_ne by done; apply lookup_insert_eq).
  all: intros m' [= <-]; rewrite !elem_of_difference, elem_of_singleton;
    by intros [[_ Hn] _].
Qed.

Lemma Capture_ready_stream_witness :
  let refs :=
    mkRefs (Some (mkVideo 1280 720 true)) (Some (mkCanvas true (Some [x4d]))) in
  let s := exec (activateCamera (mkRefs None None) (Returned 1%nat)) browser0 in
  let s' := exec (perform sample_props (Capture refs 1750000000000)) s in
  window_defined s = true /\
  stream (st s) = Some 1%nat /\
  stores (mkFile "camera-photo.jpg" "image/jpeg" [x4d]) 1750000000000 s
  = true /\
  uploadedImage (st s') = Some "data:image/jpeg;base64,TQ==" /\
  showCamera (st s') = false /\
  1%nat ∉ live s'.
Proof.
  intros refs s s'. split; [reflexivity|]. split; [reflexivity|].
  split; [vm_compute; reflexivity|].
  assert (Hw : (1280 : Z) <> 0) by lia. assert (Hh : (720 : Z) <> 0) by lia.
  assert (Hfits : stores (mkFile "camera-photo.jpg" "image/jpeg" [x4d])
                    1750000000000 s = true) by (vm_compute; reflexivity).
  pose proof (Capture_ready_stream sample_props refs (mkVideo 1280 720 true)
                (mkCanvas true (Some [x4d])) [x4d] 1750000000000 s
                eq_refl eq_refl eq_refl Hw Hh eq_refl eq_refl Hfits)
    as (_ & Hurl & _ & _ & Hcam & _ & Hlive).
  split; [exact Hurl|]. split; [exact Hcam|]. exact (Hlive 1%nat eq_refl).
Defined.

(** When the browser cannot turn the frame into a blob, the
    capture is abandoned with an alert and the camera stays on:
    nothing but the event log changes. *)
Theorem capturePhoto_blob_failure (refs : Refs) (video : Video)
    (canvas : Canvas) (s : Sys) :
  videoRef refs = Some video ->
  canvasRef refs = Some canvas ->
  has_context2d canvas = true ->
  videoWidth video <> 0 ->
  videoHeight video <> 0 ->
  toBlob canvas = None ->
  capturePhoto refs s =
  (None,
   mkSys (st s) (window_defined s) (localStorage s) (live s)
     (events s ++ [ConsoleError "Failed to create blob from canvas";
                   Alert "Failed to capture photo. Please try again."])).
Proof.
  intros Hv Hc Hctx Hw Hh Hblob. destruct s as [c w ls lv ev].
  assert (Hdim : (videoWidth video =? 0) || (videoHeight video =? 0) = false)
    by lia.
  unfold capturePhoto. rewrite Hv, Hc, Hctx, Hblob. cbn [negb]. rewrite Hdim.
  run. by rewrite <- app_assoc.
Qed.

Lemma capturePhoto_blob_failure_witness :
  let refs :=
    mkRefs (Some (mkVideo 1280 720 true)) (Some (mkCanvas true None)) in
  let s := exec (activateCamera (mkRefs None None) (Returned 1%nat)) browser0 in
  toBlob (mkCanvas true None) = None /\
  st (exec (capturePhoto refs) s) = st s /\
  live (exec (capturePhoto refs) s) = live s.
Proof.
  intros refs s. split; [reflexivity|].
  assert (Hw : (1280 : Z) <> 0) by lia. assert (Hh : (720 : Z) <> 0) by lia.
  unfold exec.
  rewrite (capturePhoto_blob_failure refs (mkVideo 1280 720 true)
             (mkCanvas true None) s eq_refl eq_refl eq_refl Hw Hh eq_refl).
  split; reflexivity.
Defined.

(** X12.  [stopCamera] leaves no camera: the stream reference is
    released, the camera view is closed, the stream that was held is no
    longer live, and nothing else changes. *)
Theorem stopCamera_releases (s : Sys) :
  let s' := exec stopCamera s in
  stream (st s') = None /\
  showCamera (st s') = false /\
  (forall m, stream (st s) = Some m -> m ∉ live s') /\
  live s' ⊆ live s /\
  uploadedImage (st s') = uploadedImage (st s) /\
  uploadedFile (st s') = uploadedFile (st s) /\
  faceAgingResult (st s') = faceAgingResult (st s) /\
  localStorage s' = localStorage s /\
  events s' = events s.
Proof.
  destruct s as [[ui uf il sc [m|] fr ip] w ls lv ev]; step;
    repeat split; try done.
  - intros m' [= <-]. rewrite elem_of_difference, elem_of_singleton.
    by intros [_ Hn].
  - apply subseteq_difference_l. done.
Qed.

(** X14.  When the camera is refused or missing, [handleCameraClick]
    alerts the user and the component is as before, loading flag off:
    no stream is held or live that was not, and the same view is
    shown. *)
Theorem CameraClick_refused `{Quota} `{JSON} (props : Props) (refs : Refs)
    (error : string) (s : Sys) :
  exec (perform props (CameraClick refs (Threw error))) s =
  mkSys
    (mkState (uploadedImage (st s)) (uploadedFile (st s)) false
       (showCamera (st s)) (stream (st s)) (faceAgingResult (st s))
       (isProcessingAging (st s)))
    (window_defined s) (localStorage s) (live s)
    (events s
     ++ [ConsoleError ("Error accessing camera: " ++ error);
         Alert "Camera not available. Please use the upload option instead."]).
Proof.
  destruct s as [[ui uf il sc sm fr ip] w ls lv ev]. step.
  rewrite decide_True by done. by rewrite <- app_assoc.
Qed.

(** X15.  When the camera is granted, the component holds the new
    stream, which is live, and shows the camera view; the loading flag
    goes off unless a video element is already mounted whose
    [loadedmetadata] never fires, in which case it stays on. *)
Theorem CameraClick_granted (refs : Refs) (m : MediaStream) (s : Sys) :
  let s' := exec (handleCameraClick refs (Returned m)) s in
  stream (st s') = Some m /\
  m ∈ live s' /\
  render (st s') = CameraView /\
  isLoading (st s')
  = match videoRef refs with
    | Some video => negb (fires_loadedmetadata video)
    | None => false
    end /\
  localStorage s' = localStorage s /\
  uploadedImage (st s') = uploadedImage (st s).
Proof.
  destruct s as [[ui uf il sc sm fr ip] w ls lv ev].
  unfold exec, handleCameraClick.
  destruct (videoRef refs) as [video|];
    [destruct (fires_loadedmetadata video)|]; step;
    repeat split; try done;
    apply elem_of_union_l; by apply elem_of_singleton.
Qed.

(** ** Invariants over whole sessions *)

Lemma exec_perform `{Quota} `{JSON} (props : Props) (a : Action) (s : Sys) :
  exec (perform props a) s
  = exec (commit_stream_effect (stream (st s))) (exec (handler_of props a) s).
Proof.
  unfold perform, exec, bind, get. by destruct (handler_of props a s).
Qed.

Lemma commit_stream_effect_exec (prev : option MediaStream) (s : Sys) :
  exec (commit_stream_effect prev) s =
  mkSys (st s) (window_defined s) (localStorage s)
    (if decide (prev = stream (st s)) then live s
     else match prev with
          | Some m => live s ∖ {[m]}
          | None => live s
          end)
    (events s).
Proof.
  destruct s as [c w ls lv ev]. run.
  destruct (decide (prev = stream c)); [done|]. by destruct prev.
Qed.

(** Case analysis on what the browser does with the cache writes. *)
Ltac split_fits :=
  repeat match goal with
         | |- context [fits ?stored] => destruct (fits stored); step
         end.

(** What every handler except the camera button does to the stream: it
    keeps it or drops it, and never makes a stream live. *)
Lemma handler_keeps_or_drops_stream `{Quota} `{JSON} (props : Props)
    (a : Action) (s : Sys) :
  (forall refs outcome, a <> CameraClick refs outcome) ->
  let s' := exec (handler_of props a) s in
  live s' ⊆ live s /\
  (stream (st s') = stream (st s) \/ stream (st s') = None).
Proof.
  intros Hcam. destruct s as [[ui uf il sc sm fr ip] w ls lv ev].
  assert (Hdrop : forall m : MediaStream, lv ∖ {[m]} ⊆ lv)
    by (intros m; by apply subseteq_difference_l).
  destruct a as [files now|refs outcome|refs now| | |fetch];
    [| by destruct (Hcam refs outcome) | | | |].
  - unfold handler_of, handleFileChange.
    destruct files as [[|file rest]|]; [step; by auto| |step; by auto].
    run. destruct (String.prefix "image/" (file_type file)); step; [|by auto].
    destruct w, (onImageUpload props); step; split_fits; by auto.
  - unfold handler_of, exec, bind, capturePhoto.
    destruct (videoRef refs) as [video|]; [|step; by auto].
    destruct (canvasRef refs) as [canvas|]; [|step; by auto].
    destruct (has_context2d canvas); [|step; by auto].
    destruct ((videoWidth video =? 0) || (videoHeight video =? 0));
      [step; by auto|].
    destruct (toBlob canvas) as [blob|]; [|step; by auto].
    destruct sm as [m|], w, (onImageUpload props) eqn:Hcb; run;
      cbn [file_type];
      change (String.prefix "image/" "image/jpeg") with true; step;
      split_fits; rewrite ?Hcb; step; by auto.
  - destruct sm as [m|]; step; by auto.
  - unfold handler_of, handleRemoveImage, call_onImageUpload.
    destruct w, (onImageUpload props); step; by auto.
  - unfold handler_of, handleFaceAging, handleFaceAging_request.
    destruct uf as [file|]; step; [|by auto].
    destruct (fetch _) as [response|error]; step; [|by auto].
    destruct (ok response); step; [|by auto].
    destruct (json_prediction response); step; by auto.
Qed.

Lemma perform_live `{Quota} `{JSON} (props : Props) (a : Action) (s : Sys) :
  live s ⊆ held_streams (st s) ->
  live (exec (perform props a) s)
  ⊆ held_streams (st (exec (perform props a) s)).
Proof.
  intros Hlive.
  assert (Hother : (forall refs outcome, a <> CameraClick refs outcome) ->
            live (exec (perform props a) s)
            ⊆ held_streams (st (exec (perform props a) s))).
  { intros Hcam.
    destruct (handler_keeps_or_drops_stream props a s Hcam) as [Hsub Hstream].
    rewrite exec_perform, commit_stream_effect_exec.
    cbn [live st]. unfold held_streams in *.
    destruct Hstream as [Hsame|Hnone].
    - rewrite decide_True by done. rewrite Hsame. by etrans.
    - rewrite Hnone. destruct (stream (st s)) as [m|].
      + rewrite decide_False by done. intros x.
        rewrite elem_of_difference. intros [Hx Hnot].
        by apply Hsub, Hlive in Hx.
      + rewrite decide_True by done. by etrans. }
  destruct a as [files now|refs outcome|refs now| | |fetch];
    try (apply Hother; intros; discriminate).
  exact (activateCamera_live refs outcome s Hlive).
Qed.

(** X17.  Over any session (any sequence of file selections, camera
    clicks, captures, cancellations, removals and prediction requests,
    each followed by its render), the only stream that can be live is
    the one the component holds: at most one camera stream is open
    after every interaction. *)
Theorem session_one_live_stream `{Quota} `{JSON} (props : Props)
    (actions : list Action) (s : Sys) :
  live s ⊆ held_streams (st s) ->
  let s' := exec (perform_all props actions) s in
  live s' ⊆ held_streams (st s') /\ (size (live s') <= 1)%nat.
Proof.
  intros Hlive s'.
  assert (Hinv : live s' ⊆ held_streams (st s')).
  { unfold s'. clear s'. revert s Hlive.
    induction actions as [|a rest IH]; intros s Hlive; [done|].
    cbn [perform_all]. rewrite exec_seq.
    apply IH. by apply perform_live. }
  split; [done|].
  etrans; [apply subseteq_size, Hinv|apply held_streams_size].
Qed.

Lemma session_one_live_stream_witness :
  let ready :=
    mkRefs (Some (mkVideo 1280 720 true)) (Some (mkCanvas true (Some [x4d]))) in
  let session :=
    [CameraClick (mkRefs None None) (Returned 1%nat);
     CancelCamera;
     CameraClick (mkRefs None None) (Returned 2%nat);
     Capture ready 1750000000000;
     CameraClick (mkRefs None None) (Returned 3%nat)] in
  live browser0 ⊆ held_streams (st browser0) /\
  (size (live (exec (perform_all sample_props session) browser0)) <= 1)%nat.
Proof.
  intros ready session.
  assert (Hlive : live browser0 ⊆ held_streams (st browser0)) by done.
  split; [exact Hlive|].
  exact (proj2 (session_one_live_stream sample_props session browser0 Hlive)).
Defined.







Lemma consistent_written (ls : gmap string string) (imageUrl t : string) :
  Some imageUrl
  = <["cachedImageTimestamp" := t]> (<["cachedImage" := imageUrl]> ls)
    !! "cachedImage" /\
  (is_Some (<["cachedImageTimestamp" := t]> (<["cachedImage" := imageUrl]> ls)
            !! "cachedImage") <->
   is_Some (<["cachedImageTimestamp" := t]> (<["cachedImage" := imageUrl]> ls)
            !! "cachedImageTimestamp")).
Proof.
  rewrite lookup_insert_ne by done. rewrite !lookup_insert_eq.
  split; [done|]. split; by eexists.
Qed.

Lemma consistent_removed (ls : gmap string string) :
  None = delete "cachedImageTimestamp" (delete "cachedImage" ls)
         !! "cachedImage" /\
  (is_Some (delete "cachedImageTimestamp" (delete "cachedImage" ls)
            !! "cachedImage") <->
   is_Some (delete "cachedImageTimestamp" (delete "cachedImage" ls)
            !! "cachedImageTimestamp")).
Proof.
  rewrite lookup_delete_ne by done. rewrite !lookup_delete_eq.
  split; [done|]. split; by intros [? ?].
Qed.

Lemma handler_cache_consistent `{Quota} `{JSON} (props : Props)
    (a : Action) (s : Sys) :
  window_defined s = true ->
  cache_consistent s ->
  action_within_quota a s = true ->
  window_defined (exec (handler_of props a) s) = true /\
  cache_consistent (exec (handler_of props a) s).
Proof.
  destruct s as [[ui uf il sc sm fr ip] w ls lv ev].
  unfold cache_consistent. cbn [window_defined st uploadedImage localStorage].
  intros -> Hc Hq.
  pose proof (consistent_removed ls) as Hremoved.
  assert (Hwritten := consistent_written ls).
  destruct a as [files now|refs outcome|refs now| | |fetch].
  - unfold handler_of, handleFileChange.
    unfold action_within_quota, handleFileChange in Hq.
    destruct files as [[|file rest]|]; [step; by auto| |step; by auto].
    run. run_in Hq.
    destruct (String.prefix "image/" (file_type file)); step; [|by auto].
    cbn [negb fst] in Hq. unfold stores in Hq. cbn [localStorage] in Hq.
    apply andb_true_iff in Hq as [Himage Hstamp].
    rewrite Himage. step. rewrite Hstamp.
    destruct (onImageUpload props); step; by auto.
  - unfold handler_of, exec, handleCameraClick. destruct outcome as [m|error].
    + destruct (videoRef refs) as [video|];
        [destruct (fires_loadedmetadata video)|]; step; by auto.
    + step; by auto.
  - unfold handler_of, exec, bind, capturePhoto.
    unfold action_within_quota, capturePhoto in Hq.
    destruct (videoRef refs) as [video|]; [|step; by auto].
    destruct (canvasRef refs) as [canvas|]; [|step; by auto].
    destruct (has_context2d canvas); [|step; by auto].
    destruct ((videoWidth video =? 0) || (videoHeight video =? 0));
      [step; by auto|].
    destruct (toBlob canvas) as [blob|]; [|step; by auto].
    destruct sm as [m|];
      (run_in Hq; cbn [file_type] in Hq;
       change (String.prefix "image/" "image/jpeg") with true in Hq;
       cbn [negb] in Hq; run_in Hq; cbn [negb fst] in Hq;
       unfold stores in Hq; cbn [localStorage] in Hq;
       apply andb_true_iff in Hq as [Himage Hstamp]);
      destruct (onImageUpload props) eqn:Hcb; run;
      cbn [file_type];
      change (String.prefix "image/" "image/jpeg") with true; step;
      rewrite Himage; step; rewrite Hstamp; step;
      rewrite ?Hcb; step; by auto.
  - destruct sm as [m|]; step; by auto.
  - unfold handler_of, handleRemoveImage, call_onImageUpload.
    destruct (onImageUpload props); step; by auto.
  - unfold handler_of, handleFaceAging, handleFaceAging_request.
    destruct uf as [file|]; step; [|by auto].
    destruct (fetch _) as [response|error]; step; [|by auto].
    destruct (ok response); step; [|by auto].
    destruct (json_prediction response); step; by auto.
Qed.

Lemma perform_cache_consistent `{Quota} `{JSON} (props : Props)
    (a : Action) (s : Sys) :
  window_defined s = true ->
  cache_consistent s ->
  action_within_quota a s = true ->
  window_defined (exec (perform props a) s) = true /\
  cache_consistent (exec (perform props a) s).
Proof.
  intros Hw Hc Hq. rewrite exec_perform, commit_stream_effect_exec.
  exact (handler_cache_consistent props a s Hw Hc Hq).
Qed.

(** X18.  Over any session in a browser in which no cache write runs
    into the storage quota, the image held by the component and the
    cache stay in step: the component holds exactly the data URL stored
    under [cachedImage], and [cachedImage] and [cachedImageTimestamp]
    are present together or not at all. *)
Theorem session_cache_consistent `{Quota} `{JSON} (props : Props)
    (actions : list Action) (s : Sys) :
  window_defined s = true ->
  cache_consistent s ->
  session_within_quota props actions s ->
  cache_consistent (exec (perform_all props actions) s).
Proof.
  revert s. induction actions as [|a rest IH]; intros s Hw Hc Hq; [done|].
  cbn [perform_all]. rewrite exec_seq. destruct Hq as [Hqa Hqrest].
  destruct (perform_cache_consistent props a s Hw Hc Hqa) as [Hw' Hc'].
  by apply IH.
Qed.

Lemma session_cache_consistent_witness :
  let ready :=
    mkRefs (Some (mkVideo 1280 720 true)) (Some (mkCanvas true (Some [x4d]))) in
  let session :=
    [FileChange (Some [portrait]) 1750000000000;
     RemoveImage;
     CameraClick (mkRefs None None) (Returned 1%nat);
     Capture ready 1750000060000] in
  window_defined browser0 = true /\
  cache_consistent browser0 /\
  session_within_quota sample_props session browser0 /\
  cache_consistent (exec (perform_all sample_props session) browser0).
Proof.
  intros ready session.
  assert (Hc : cache_consistent browser0).
  { split; [reflexivity|]. split; intros [x Hx]; discriminate Hx. }
  assert (Hq : session_within_quota sample_props session browser0).
  { repeat split; vm_compute; reflexivity. }
  split; [reflexivity|]. split; [exact Hc|]. split; [exact Hq|].
  exact (session_cache_consistent sample_props session browser0 eq_refl Hc
           Hq).
Defined.

(** X19.  A page load on a complete entry (both keys present and
    non-empty) or on no entry at all ends in a consistent state,
    whatever the timestamp holds: the image is restored, or both keys
    are gone. *)
Theorem mount_cache_consistent `{JSON} (props : Props) (now : Z)
    (stored : gmap string string) :
  truthy (stored !! "cachedImage")
  && truthy (stored !! "cachedImageTimestamp") = true \/
  (stored !! "cachedImage" = None /\
   stored !! "cachedImageTimestamp" = None) ->
  cache_consistent (exec (loadCachedImage props now) (mounted_on stored)).
Proof.
  intros [Hboth|[Hi Ht]].
  - apply andb_true_iff in Hboth as [Hi Ht].
    destruct (stored !! "cachedImage") as [imageUrl|] eqn:Himg; [|done].
    destruct (stored !! "cachedImageTimestamp") as [t|] eqn:Hts; [|done].
    unfold cache_consistent, mounted_on. step.
    rewrite Himg, Hts, Hi, Ht. step. cbn [default from_option id].
    destruct (Num.lt _ _); destruct (onImageUpload props); step;
      rewrite ?Himg, ?Hts; try (split; [done|split; by eexists]);
      apply consistent_removed.
  - rewrite loadCachedImage_incomplete_entry_aux.
    + unfold cache_consistent, mounted_on. cbn. rewrite Hi, Ht.
      split; [done|]. split; by intros [? ?].
    + unfold mounted_on. cbn [localStorage]. by rewrite Hi.
Qed.

Lemma mount_cache_consistent_witness :
  let stored : gmap string string :=
    <["cachedImageTimestamp" := "1750000000000"]>
      (<["cachedImage" := "data:image/png;base64,TWFu"]> ∅) in
  truthy (stored !! "cachedImage")
  && truthy (stored !! "cachedImageTimestamp") = true /\
  cache_consistent
    (exec (loadCachedImage sample_props 1750003600000) (mounted_on stored)).
Proof.
  intros stored. split; [reflexivity|].
  exact (mount_cache_consistent sample_props 1750003600000 stored
           (or_introl eq_refl)).
Defined.

Lemma unmount_stops_stream_witness :
  let s := exec (activateCamera (mkRefs None None) (Returned 1%nat)) browser0 in
  live s ⊆ held_streams (st s) /\
  1%nat ∈ live s /\
  live (exec unmount s) = ∅.
Proof.
  intros s.
  assert (Hlive : live s ⊆ held_streams (st s)).
  { apply activateCamera_live. done. }
  split; [exact Hlive|]. split; [vm_compute; reflexivity|].
  exact (unmount_stops_stream s Hlive).
Defined.

(** ** More on the face-aging route *)

(** The status and the kind of body go together. *)
Lemma POST_sent_status `{JSON} (env : ProcessEnv)
    (images_edit : ImagesEditParams -> Thrown string ImagesResponse)
    (now_iso : string) (request : Thrown string FormData) :
  let r := sent (POST env images_edit now_iso request) in
  (status r = 200 /\
   match body r with PredictionBody _ _ _ => True | ErrorBody _ => False end)
  \/
  (status r <> 200 /\
   match body r with PredictionBody _ _ _ => False | ErrorBody _ => True end).
Proof.
  intros r. unfold r, POST. clear r.
  destruct request as [formData|error]; [|by right].
  destruct (entry_truthy (FormData_get "image" formData)); [|by right].
  destruct (entry_truthy (FormData_get "smash" formData)); [|by right].
  destruct (truthy (OPENAI_API_KEY env)); [|by right].
  destruct (JSON_parse _) as [parsed|]; [|by right].
  destruct (images_edit _) as [resp|error]; [by left|by right].
Qed.

(** X20.  The route calls the hosted API at most once, and only for a
    request that passed every check; the call then carries the
    submitted image entry, the prompt built from the parsed context,
    and asks for one 1024x1024 image of medium quality. *)
Theorem POST_calls_hosted_API_once `{JSON} (env : ProcessEnv)
    (images_edit : ImagesEditParams -> Thrown string ImagesResponse)
    (now_iso : string) (request : Thrown string FormData) :
  let h := POST env images_edit now_iso request in
  (length (calls h) <= 1)%nat /\
  (forall params, In params (calls h) ->
     exists formData parsed,
       request = Returned formData /\
       passes_validation env formData = true /\
       JSON_parse (entry_string (FormData_get "smash" formData))
       = Some parsed /\
       params = mkImagesEditParams "gpt-image-1"
                  (FormData_get "image" formData) (prompt_of parsed) 1
                  "1024x1024" "medium") /\
  (forall formData,
     request = Returned formData -> passes_validation env formData = true ->
     length (calls h) = 1%nat).
Proof.
  intros h. unfold h. clear h.
  destruct request as [formData|error].
  - destruct (passes_validation env formData) eqn:Hv.
    + destruct (POST_validated env images_edit now_iso formData Hv)
        as (parsed & Hparsed & Heq).
      cbv zeta in Heq. rewrite Heq.
      destruct (images_edit _); cbn [calls prediction_failed length In];
        (split; [lia|]); (split; [|done]);
        intros params [<-|[]]; by exists formData, parsed.
    + rewrite POST_not_validated by done.
      split; [cbn; lia|]. split; [by intros params []|].
      by intros formData' [= <-] Hv'; rewrite Hv' in Hv.
  - cbn. split; [lia|]. split; [by intros params []|]. by intros formData [=].
Qed.

(** X21.  Every response of the route is one of five: MissingField,
    ServiceUnavailable, MalformedContext, PredictionFailed, or a 200
    whose model is [dall-e-2] and whose prediction is [null] or a PNG
    data URL with a non-empty payload.  Nothing goes to the server
    console except with PredictionFailed. *)
Theorem POST_response_shapes `{JSON} (env : ProcessEnv)
    (images_edit : ImagesEditParams -> Thrown string ImagesResponse)
    (now_iso : string) (request : Thrown string FormData) :
  let h := POST env images_edit now_iso request in
  (sent h = MissingField \/
   sent h = ServiceUnavailable \/
   sent h = MalformedContext \/
   sent h = PredictionFailed \/
   exists prediction,
     sent h = mkNextResponse 200 (PredictionBody prediction "dall-e-2" now_iso)
     /\ (prediction = None \/
         exists payload,
           payload <> "" /\
           prediction = Some ("data:image/png;base64," ++ payload))) /\
  (server_console h <> [] -> sent h = PredictionFailed).
Proof.
  intros h. unfold h, POST. clear h.
  assert (Hquiet : forall A : Prop, @nil string <> [] -> A) by done.
  destruct request as [formData|error];
    [|split; [auto 6|done]].
  destruct (entry_truthy (FormData_get "image" formData));
    [|split; [auto|apply Hquiet]].
  destruct (entry_truthy (FormData_get "smash" formData));
    [|split; [auto|apply Hquiet]].
  destruct (truthy (OPENAI_API_KEY env)); [|split; [auto|apply Hquiet]].
  destruct (JSON_parse _) as [parsed|]; [|split; [auto 6|apply Hquiet]].
  destruct (images_edit _) as [r|error]; [|split; [auto 6|done]].
  cbn [negb orb sent server_console]. split; [|apply Hquiet].
  do 4 right. eexists. split; [reflexivity|].
  destruct (first_b64_json r) as [payload|]; [|by left].
  cbn [truthy default from_option id].
  destruct (String.eqb_spec payload ""); cbn [negb]; [by left|].
  right. by exists payload.
Qed.

Lemma missing_field_first_witness :
  let formData := [("image", FileEntry portrait)] in
  entry_truthy (FormData_get "smash" formData) = false /\
  sent (POST (H := empty_object_json) (mkProcessEnv None)
          (fun _ => Threw "not called") "2025-06-15T12:00:00.000Z"
          (Returned formData))
  = MissingField.
Proof.
  intros formData. split; [reflexivity|].
  exact (missing_field_first (H := empty_object_json) (mkProcessEnv None)
           (fun _ => Threw "not called") "2025-06-15T12:00:00.000Z" formData
           (or_intror eq_refl)).
Defined.

(** What [handleFaceAging] receives from the route. *)
Lemma fetch_route_delivers `{JSON} (env : ProcessEnv)
    (images_edit : ImagesEditParams -> Thrown string ImagesResponse)
    (now_iso : string) (formData : FormData) :
  delivered_prediction (fetch_route env images_edit now_iso formData)
  = match body (sent (POST env images_edit now_iso (Returned formData))) with
    | PredictionBody prediction _ _ => Some prediction
    | ErrorBody _ => None
    end.
Proof.
  unfold fetch_route, delivered_prediction, http_of_response, POST.
  destruct (entry_truthy (FormData_get "image" formData)); [|done].
  destruct (entry_truthy (FormData_get "smash" formData)); [|done].
  destruct (truthy (OPENAI_API_KEY env)); [|done].
  destruct (JSON_parse _) as [parsed|]; [|done].
  by destruct (images_edit _) as [r|error].
Qed.

(** X22.  End to end, success: when the hosted API returns a non-empty
    base64 payload for the component's request, the route answers with
    the PNG data URL of that payload and the component stores exactly
    it. *)
Theorem prediction_reaches_component `{JSON} (props : Props)
    (env : ProcessEnv)
    (images_edit : ImagesEditParams -> Thrown string ImagesResponse)
    (now_iso : string) (s : Sys) (file : File) (r : ImagesResponse)
    (payload : string) :
  uploadedFile (st s) = Some file ->
  let h := POST env images_edit now_iso
             (Returned (face_aging_form props file)) in
  downstream_outcome images_edit h = Some (Returned r) ->
  first_b64_json r = Some payload ->
  payload <> "" ->
  let s' := exec (handleFaceAging props (fetch_route env images_edit now_iso))
              s in
  sent h = mkNextResponse 200
             (PredictionBody (Some ("data:image/png;base64," ++ payload))
                "dall-e-2" now_iso) /\
  faceAgingResult (st s') = Some ("data:image/png;base64," ++ payload).
Proof.
  intros Hfile h Hout Hpayload Hne s'.
  assert (Hsent : sent h = mkNextResponse 200
            (PredictionBody (Some ("data:image/png;base64," ++ payload))
               "dall-e-2" now_iso)).
  { destruct (passes_validation env (face_aging_form props file)) eqn:Hv.
    - destruct (POST_validated env images_edit now_iso _ Hv)
        as (parsed & _ & Heq).
      cbv zeta in Heq. unfold h, downstream_outcome in *. rewrite Heq in *.
      destruct (images_edit _) as [r'|error] eqn:Hcall;
        cbn [calls prediction_failed] in Hout; rewrite Hcall in Hout;
        [|done].
      injection Hout as ->. rewrite Hpayload.
      cbn [truthy sent default from_option id].
      by destruct (String.eqb_spec payload "").
    - unfold downstream_outcome, h in Hout.
      by rewrite POST_not_validated in Hout. }
  split; [done|].
  destruct (handleFaceAging_exec props (fetch_route env images_edit now_iso)
              file s Hfile) as (log & Hs' & _).
  unfold s'. rewrite Hs'. cbn [st faceAgingResult].
  rewrite fetch_route_delivers. fold h. by rewrite Hsent.
Qed.

Lemma prediction_reaches_component_witness :
  let env := mkProcessEnv (Some "sk-test") in
  let answer := mkImagesResponse (Some [mkImage (Some "b2xk")]) in
  let images_edit := fun _ : ImagesEditParams =>
    Returned (E := string) answer in
  let s := exec (selectFile sample_props portrait 1750000000000) browser0 in
  uploadedFile (st s) = Some portrait /\
  first_b64_json answer = Some "b2xk" /\
  faceAgingResult
    (st (exec (handleFaceAging sample_props
                 (fetch_route (H := empty_object_json) env images_edit
                    "2025-06-15T12:00:00.000Z")) s))
  = Some old_prediction.
Proof.
  intros env answer images_edit s.
  split; [reflexivity|]. split; [reflexivity|].
  assert (Hne : "b2xk" <> "") by discriminate.
  exact (proj2 (prediction_reaches_component sample_props env images_edit
                  "2025-06-15T12:00:00.000Z" s portrait answer "b2xk"
                  eq_refl eq_refl eq_refl Hne)).
Defined.

(** X23.  End to end, failure: whenever the route answers the
    component's request with anything but a success, the component
    keeps the prediction it had and ends on the failure alert; what the
    hosted API said is not shown. *)
Theorem route_failure_reaches_component `{JSON} (props : Props)
    (env : ProcessEnv)
    (images_edit : ImagesEditParams -> Thrown string ImagesResponse)
    (now_iso : string) (s : Sys) (file : File) :
  uploadedFile (st s) = Some file ->
  is_success
    (sent (POST env images_edit now_iso
             (Returned (face_aging_form props file)))) = false ->
  let s' := exec (handleFaceAging props (fetch_route env images_edit now_iso))
              s in
  faceAgingResult (st s') = faceAgingResult (st s) /\
  last (events s')
  = Some (Alert "Failed to process face aging. Please try again.").
Proof.
  intros Hfile Hfail s'.
  assert (Hnone : delivered_prediction
                    (fetch_route env images_edit now_iso
                       (face_aging_form props file)) = None).
  { rewrite fetch_route_delivers.
    destruct (POST_sent_status env images_edit now_iso
                (Returned (face_aging_form props file))) as [Hs|Hs].
    - unfold is_success in Hfail. rewrite (proj1 Hs) in Hfail.
      destruct (body _); [done|]. by destruct Hs as [_ []].
    - by destruct (body _); [|destruct Hs as [_ []]]. }
  destruct (handleFaceAging_exec props (fetch_route env images_edit now_iso)
              file s Hfile) as (log & Hs' & Hlog & Hlast).
  unfold s'. rewrite Hs', Hnone in *. cbn [st faceAgingResult events].
  split; [done|].
  assert (Hne : log <> []).
  { intros Hnil. apply Hlog in Hnil. by destruct Hnil. }
  rewrite last_app_cons, last_cons. by rewrite (Hlast Hne).
Qed.

Lemma route_failure_reaches_component_witness :
  let env := mkProcessEnv None in
  let images_edit := fun _ : ImagesEditParams =>
    Threw (A := ImagesResponse) "not called" in
  let s :=
    mkSys
      (mkState (Some (readAsDataURL portrait)) (Some portrait) false false
         None (Some old_prediction) false)
      true ∅ ∅ [] in
  uploadedFile (st s) = Some portrait /\
  faceAgingResult
    (st (exec (handleFaceAging sample_props
                 (fetch_route (H := empty_object_json) env images_edit
                    "2025-06-15T12:00:00.000Z")) s))
  = Some old_prediction.
Proof.
  intros env images_edit s. split; [reflexivity|].
  exact (proj1 (route_failure_reaches_component sample_props env images_edit
                  "2025-06-15T12:00:00.000Z" s portrait eq_refl eq_refl)).
Defined.

(** ** Visiting the doctor *)

Lemma handleVisitDoctor_success_aux `{JSON}
    (fetch : string -> string -> Thrown JsThrown VisitResponse)
    (smash : json_value) (s : VisitState) (response : VisitResponse)
    (result : json_value) :
  fetch visit_url (JSON_stringify smash) = Returned response ->
  visit_ok response = true ->
  visit_json response = Returned result ->
  handleVisitDoctor fetch smash s =
  mkVisitState false (Some result) None
    (visit_events s
     ++ [VisitFetch visit_url (JSON_stringify smash);
         VisitConsoleLog "Visit API response:" result;
         VisitAlert
           "Visit doctor successfully! Your improvement plan is now showing."]).
Proof.
  intros Hfetch Hok Hjson.
  unfold handleVisitDoctor, scheduleVisit, scheduleVisit_settled.
  rewrite Hfetch, Hok, Hjson.
  unfold scheduleVisit_request, visit_emit, setVisitIsLoading,
    setImprovementData, setError.
  cbn. by rewrite <- !app_assoc.
Qed.

Lemma handleVisitDoctor_failure_aux `{JSON}
    (fetch : string -> string -> Thrown JsThrown VisitResponse)
    (smash : json_value) (s : VisitState) (err : JsThrown) :
  visit_failure (fetch visit_url (JSON_stringify smash)) = Some err ->
  handleVisitDoctor fetch smash s =
  mkVisitState false (improvementData s) (Some (error_message err))
    (visit_events s
     ++ [VisitFetch visit_url (JSON_stringify smash);
         VisitConsoleError "Error calling visit API:" err;
         VisitConsoleError "Error calling visit API:" err;
         VisitAlert "Failed to schedule visit. Please try again."]).
Proof.
  unfold visit_failure, handleVisitDoctor, scheduleVisit,
    scheduleVisit_settled, scheduleVisit_catch, scheduleVisit_request,
    visit_emit, setVisitIsLoading, setImprovementData, setError.
  destruct (fetch _ _) as [response|thrown].
  - destruct (visit_ok response).
    + destruct (visit_json response) as [result|thrown]; [done|].
      intros [= <-]. cbn. by rewrite <- !app_assoc.
    + intros [= <-]. cbn. by rewrite <- !app_assoc.
  - intros [= <-]. cbn. by rewrite <- !app_assoc.
Qed.

(** A visit that succeeds replaces the improvement plan by the
    answer, clears any earlier error, ends with the loading flag off,
    and the user gets the success alert. *)
Theorem handleVisitDoctor_success `{JSON}
    (fetch : string -> string -> Thrown JsThrown VisitResponse)
    (smash : json_value) (s : VisitState) (response : VisitResponse)
    (result : json_value) :
  fetch visit_url (JSON_stringify smash) = Returned response ->
  visit_ok response = true ->
  visit_json response = Returned result ->
  handleVisitDoctor fetch smash s =
  mkVisitState false (Some result) None
    (visit_events s
     ++ [VisitFetch visit_url (JSON_stringify smash);
         VisitConsoleLog "Visit API response:" result;
         VisitAlert
           "Visit doctor successfully! Your improvement plan is now showing."]).
Proof. apply handleVisitDoctor_success_aux. Qed.

Lemma handleVisitDoctor_success_witness :
  let response :=
    mkVisitResponse (H := empty_object_json) true 200 (Returned tt) in
  let fetch := fun _ _ : string => Returned (E := JsThrown) response in
  let failed :=
    mkVisitState (H := empty_object_json) false None
      (Some "HTTP error! status: 503") [] in
  visit_ok response = true /\
  visit_error (handleVisitDoctor fetch tt failed) = None /\
  improvementData (handleVisitDoctor fetch tt failed) = Some tt.
Proof.
  intros response fetch failed. split; [reflexivity|].
  rewrite (handleVisitDoctor_success (H := empty_object_json) fetch tt failed
             response tt eq_refl eq_refl eq_refl).
  split; reflexivity.
Defined.

(** X24.  A visit that fails (the fetch is rejected, the status is not
    [ok], or the body cannot be read) keeps the improvement plan that
    was shown, records the message of the error, ends with the loading
    flag off, logs the error in the hook and again in the page, and the
    user gets the failure alert. *)
Theorem handleVisitDoctor_failure `{JSON}
    (fetch : string -> string -> Thrown JsThrown VisitResponse)
    (smash : json_value) (s : VisitState) (err : JsThrown) :
  visit_failure (fetch visit_url (JSON_stringify smash)) = Some err ->
  handleVisitDoctor fetch smash s =
  mkVisitState false (improvementData s) (Some (error_message err))
    (visit_events s
     ++ [VisitFetch visit_url (JSON_stringify smash);
         VisitConsoleError "Error calling visit API:" err;
         VisitConsoleError "Error calling visit API:" err;
         VisitAlert "Failed to schedule visit. Please try again."]).
Proof. apply handleVisitDoctor_failure_aux. Qed.

Lemma handleVisitDoctor_failure_witness :
  let response :=
    mkVisitResponse (H := empty_object_json) false 503 (Returned tt) in
  let fetch := fun _ _ : string => Returned (E := JsThrown) response in
  let shown :=
    mkVisitState (H := empty_object_json) false (Some tt) None [] in
  visit_failure (fetch visit_url "{}")
  = Some (ErrorObject "HTTP error! status: 503") /\
  visit_error (handleVisitDoctor fetch tt shown)
  = Some "HTTP error! status: 503" /\
  improvementData (handleVisitDoctor fetch tt shown) = Some tt.
Proof.
  intros response fetch shown. split; [reflexivity|].
  rewrite (handleVisitDoctor_failure (H := empty_object_json) fetch tt shown
             (ErrorObject "HTTP error! status: 503") eq_refl).
  split; reflexivity.
Defined.


(** ** The build page *)

Lemma ticks_succ (n : nat) (s : Build.State) :
  Build.ticks (S n) s = Build.tick (Build.ticks n s).
Proof.
  revert s. induction n as [|n IH]; intros s; [done|].
  cbn [Build.ticks] in *. by rewrite IH.
Qed.

Lemma steps_length : length Build.steps = 6%nat.
Proof. reflexivity. Qed.

Lemma tick_in_progress (n : nat) :
  (n < 5)%nat ->
  Build.tick (Build.mkState n (seq 0 (S n)) false true 0)
  = Build.mkState (S n) (seq 0 (S (S n))) false true 0.
Proof.
  intros Hn. unfold Build.tick, Build.timeout, Build.effect.
  cbn [Build.timer Build.currentStep Build.completedSteps Build.isComplete
       Build.onComplete_calls].
  rewrite steps_length.
  replace (n =? 6 - 1)%nat with false by (symmetry; apply Nat.eqb_neq; lia).
  cbn [Build.currentStep Build.completedSteps Build.isComplete
       Build.onComplete_calls].
  replace (S n =? n)%nat with false by (symmetry; apply Nat.eqb_neq; lia).
  replace (S n <? 6)%nat with true by (symmetry; apply Nat.ltb_lt; lia).
  by rewrite (seq_S (S n) 0).
Qed.

Lemma ticks_in_progress (n : nat) :
  (n <= 5)%nat ->
  Build.ticks n Build.mount = Build.mkState n (seq 0 (S n)) false true 0.
Proof.
  induction n as [|n IH]; intros Hn; [done|].
  rewrite ticks_succ, IH by lia. apply tick_in_progress. lia.
Qed.

Lemma ticks_done (k : nat) :
  Build.ticks (6 + k) Build.mount = Build.mkState 5 (seq 0 6) true false 1.
Proof.
  induction k as [|k IH].
  - rewrite Nat.add_0_r, ticks_succ, ticks_in_progress by lia. reflexivity.
  - replace (6 + S k)%nat with (S (6 + k)) by lia.
    rewrite ticks_succ, IH. reflexivity.
Qed.

Lemma includes_seq (k index : nat) :
  Build.includes (seq 0 (S k)) index = (index <=? k)%nat.
Proof.
  unfold Build.includes. apply eq_true_iff_eq.
  rewrite existsb_exists, Nat.leb_le. split.
  - intros (x & Hin & Heq). apply in_seq in Hin.
    apply Nat.eqb_eq in Heq. lia.
  - intros Hle. exists index. split; [apply in_seq; lia|apply Nat.eqb_refl].
Qed.

Lemma build_completes_once_aux (n : nat) :
  (6 <= n)%nat ->
  Build.ticks n Build.mount = Build.mkState 5 (seq 0 6) true false 1.
Proof.
  intros Hn. replace n with (6 + (n - 6))%nat by lia. apply ticks_done.
Qed.

(** X26.  While the build runs, after [n] timer periods ([n] at most 5)
    the page is on step [n], steps 0 to [n] are recorded as completed,
    in order and once each, a timer is pending, and [onComplete] has
    not been called. *)
Theorem build_in_progress (n : nat) :
  (n <= 5)%nat ->
  let s := Build.ticks n Build.mount in
  Build.currentStep s = n /\
  Build.completedSteps s = seq 0 (S n) /\
  Build.isComplete s = false /\
  Build.timer s = true /\
  Build.onComplete_calls s = 0%nat.
Proof. intros Hn s. unfold s. by rewrite ticks_in_progress. Qed.

Lemma build_in_progress_witness :
  (3 <= 5)%nat /\
  Build.completedSteps (Build.ticks 3 Build.mount) = [0; 1; 2; 3]%nat.
Proof.
  split; [lia|].
  assert (Hn : (3 <= 5)%nat) by lia.
  exact (proj1 (proj2 (build_in_progress 3 Hn))).
Defined.

(** X27.  From the sixth timer period on the build is complete and stays
    so: all six steps are completed, [onComplete] has been called
    exactly once, and no timer is pending any more. *)
Theorem build_completes_once (n : nat) :
  (6 <= n)%nat ->
  Build.ticks n Build.mount
  = Build.mkState 5 [0; 1; 2; 3; 4; 5]%nat true false 1.
Proof.
  intros Hn. replace n with (6 + (n - 6))%nat by lia. apply ticks_done.
Qed.

Lemma build_completes_once_witness :
  (6 <= 9)%nat /\
  Build.onComplete_calls (Build.ticks 9 Build.mount) = 1%nat.
Proof.
  assert (Hn : (6 <= 9)%nat) by lia.
  split; [exact Hn|]. by rewrite (build_completes_once 9 Hn).
Defined.

(** The render between a timer and the effect it triggers: the page
    has moved to the next step, which is not yet recorded as
    completed. *)
Lemma timeout_in_progress (n : nat) :
  (n < 5)%nat ->
  Build.timeout (Build.ticks n Build.mount)
  = Build.mkState (S n) (seq 0 (S n)) false false 0.
Proof.
  intros Hn. rewrite ticks_in_progress by lia.
  unfold Build.timeout, Build.steps.
  cbn [Build.currentStep Build.completedSteps Build.isComplete
       Build.onComplete_calls length].
  by replace (n =? 6 - 1)%nat with false
    by (symmetry; apply Nat.eqb_neq; lia).
Qed.

(** X28.  What [getStepStatus] returns in every render.  In the first
    render step 0 is current and the others are pending.  In the render
    that follows the [n]-th timer ([n] below 5), before the effect has
    run, steps 0 to [n] are completed, step [n + 1] is current and the
    later ones are pending.  Once the effect has run, which records the
    step it is on as completed, no step is current: after [n] timer
    periods every step up to the [n]-th (up to the last) is completed
    and every later one is pending. *)
Theorem build_status (n index : nat) :
  Build.getStepStatus Build.initial index
  = (if (index =? 0)%nat then Build.current else Build.pending) /\
  ((n < 5)%nat ->
   Build.getStepStatus (Build.timeout (Build.ticks n Build.mount)) index
   = if (index <=? n)%nat then Build.completed
     else if (index =? S n)%nat then Build.current else Build.pending) /\
  Build.getStepStatus (Build.ticks n Build.mount) index
  = (if (index <=? Nat.min n 5)%nat then Build.completed else Build.pending).
Proof.
  split; [done|]. split.
  - intros Hn. rewrite timeout_in_progress by done.
    unfold Build.getStepStatus.
    cbn [Build.completedSteps Build.currentStep].
    by rewrite includes_seq.
  - unfold Build.getStepStatus.
    destruct (Nat.le_gt_cases n 5) as [Hn|Hn].
    + rewrite ticks_in_progress by done.
      cbn [Build.completedSteps Build.currentStep].
      rewrite includes_seq, Nat.min_l by done.
      destruct (Nat.leb_spec index n); [done|].
      by replace (index =? n)%nat with false
        by (symmetry; apply Nat.eqb_neq; lia).
    + rewrite build_completes_once_aux by lia.
      cbn [Build.completedSteps Build.currentStep].
      rewrite (includes_seq 5), Nat.min_r by lia.
      destruct (Nat.leb_spec index 5); [done|].
      by replace (index =? 5)%nat with false
        by (symmetry; apply Nat.eqb_neq; lia).
Qed.

Lemma build_status_witness :
  (2 < 5)%nat /\
  Build.getStepStatus (Build.timeout (Build.ticks 2 Build.mount)) 3
  = Build.current /\
  Build.getStepStatus (Build.ticks 2 Build.mount) 2 = Build.completed /\
  Build.getStepStatus (Build.ticks 2 Build.mount) 3 = Build.pending.
Proof.
  assert (Hn : (2 < 5)%nat) by lia.
  split; [exact Hn|].
  split; [exact (proj1 (proj2 (build_status 2 3)) Hn)|].
  split; [exact (proj2 (proj2 (build_status 2 2)))|].
  exact (proj2 (proj2 (build_status 2 3))).
Defined.

(** ** Evidence links *)

Lemma before_slash_host (host rest : string) :
  ~ Link.occurs "/" host ->
  Link.before_slash (host ++ String "/" rest) = host.
Proof.
  induction host as [|c host IH]; intros Hno; [done|].
  rewrite string_app_cons. cbn [Link.before_slash].
  cbn [Link.occurs] in Hno.
  destruct (Ascii.eqb_spec c "/") as [->|_]; [by destruct Hno; left|].
  rewrite IH; [done|]. intros Hin. apply Hno. by right.
Qed.

Lemma before_slash_whole (host : string) :
  ~ Link.occurs "/" host -> Link.before_slash host = host.
Proof.
  induction host as [|c host IH]; intros Hno; [done|].
  cbn [Link.before_slash]. cbn [Link.occurs] in Hno.
  destruct (Ascii.eqb_spec c "/") as [->|_]; [by destruct Hno; left|].
  rewrite IH; [done|]. intros Hin. apply Hno. by right.
Qed.

(** X29.  For a link that starts with [https://] or [http://], the
    text shown is the host: what stands between the scheme and the
    first slash, or the end of the link when there is no slash. *)
Theorem link_label_is_host (host path : string) :
  ~ Link.occurs "/" host ->
  Link.label ("https://" ++ host ++ String "/" path) = host /\
  Link.label ("http://" ++ host ++ String "/" path) = host /\
  Link.label ("https://" ++ host) = host /\
  Link.label ("http://" ++ host) = host.
Proof.
  intros Hno. unfold Link.label.
  change (Link.replace_scheme ("https://" ++ host ++ String "/" path))
    with (host ++ String "/" path).
  change (Link.replace_scheme ("http://" ++ host ++ String "/" path))
    with (host ++ String "/" path).
  change (Link.replace_scheme ("https://" ++ host)) with host.
  change (Link.replace_scheme ("http://" ++ host)) with host.
  rewrite !before_slash_host, !before_slash_whole by done. done.
Qed.

Lemma link_label_is_host_witness :
  ~ Link.occurs "/" "pubmed.ncbi.nlm.nih.gov" /\
  Link.label "https://pubmed.ncbi.nlm.nih.gov/12345678/"
  = "pubmed.ncbi.nlm.nih.gov".
Proof.
  assert (Hno : ~ Link.occurs "/" "pubmed.ncbi.nlm.nih.gov").
  { cbn. intros Hin. repeat (destruct Hin as [Heq|Hin]; [discriminate Heq|]).
    exact Hin. }
  split; [exact Hno|].
  exact (proj1 (link_label_is_host "pubmed.ncbi.nlm.nih.gov" "12345678/" Hno)).
Defined.

(** X30.  The text of an evidence link never contains a slash,
    whatever the link. *)
Theorem link_label_has_no_slash (url : string) :
  ~ Link.occurs "/" (Link.label url).
Proof.
  unfold Link.label. generalize (Link.replace_scheme url). clear url.
  intros s. induction s as [|c s IH]; [cbn; tauto|].
  cbn [Link.before_slash].
  destruct (Ascii.eqb_spec c "/") as [->|Hne]; [cbn; tauto|].
  cbn [Link.occurs]. intros [Heq|Hin]; [by apply Hne|by apply IH].
Qed.

Example link_label_scheme_inside :
  Link.label "example.org/go?to=http://other.net/x" = "example.org".
Proof. reflexivity. Qed.
